(** * A shallow embedding of the ingress-manager controller (pkg/controller.go)

    The controller watches Services and keeps, for every Service carrying the
    annotation ["ingress/http"], an Ingress of the same namespace and name.
    The Go code is stateful: it drives a rate-limited work queue, reads two
    listers and calls the networking client.  Here the queue is an explicit
    state, the listers and the client are oracles held by the [controller]
    record, and every effect is appended to a chronological log, so that the
    statements below can speak about which calls were issued and in which
    order.  A Go panic is an outcome of its own. *)

From Stdlib Require Import ZArith Ascii String.
From stdpp Require Import gmap strings list fin_maps.

Local Open Scope string_scope.
Local Open Scope list_scope.

(** ** Kubernetes objects, as far as the controller touches them *)

Record OwnerReference := mkOwnerReference {
  or_APIVersion : string;
  or_Kind : string;
  or_Name : string;
  or_UID : string;
  or_Controller : option bool;          (* *bool *)
  or_BlockOwnerDeletion : option bool   (* *bool *)
}.

Record ObjectMeta := mkObjectMeta {
  om_Name : string;
  om_Namespace : string;
  om_UID : string;
  om_Annotations : gmap string string;
  om_OwnerReferences : list OwnerReference
}.

(** coreV1.Service: only the embedded ObjectMeta is read by the controller. *)
Record Service := mkService { svc_ObjectMeta : ObjectMeta }.

Inductive PathType := PathTypeExact | PathTypePrefix | PathTypeImplementationSpecific.

Record ServiceBackendPort := mkServiceBackendPort {
  sbp_Name : string;
  sbp_Number : Z                        (* int32 *)
}.

Record IngressServiceBackend := mkIngressServiceBackend {
  isb_Name : string;
  isb_Port : ServiceBackendPort
}.

Record IngressBackend := mkIngressBackend {
  ib_Service : option IngressServiceBackend   (* *IngressServiceBackend *)
}.

Record HTTPIngressPath := mkHTTPIngressPath {
  hip_Path : string;
  hip_PathType : option PathType;       (* *PathType *)
  hip_Backend : IngressBackend
}.

Record HTTPIngressRuleValue := mkHTTPIngressRuleValue {
  hirv_Paths : list HTTPIngressPath
}.

Record IngressRule := mkIngressRule {
  ir_Host : string;
  ir_HTTP : option HTTPIngressRuleValue (* IngressRuleValue{HTTP: *...} *)
}.

Record IngressSpec := mkIngressSpec { is_Rules : list IngressRule }.

Record Ingress := mkIngress {
  ing_ObjectMeta : ObjectMeta;
  ing_Spec : IngressSpec
}.

(** Go errors.  The controller only ever asks one question of an error,
    [errors.IsNotFound]; the other constructors keep apart the errors that
    arise in different places. *)
Inductive error :=
| ErrNotFound (what : string)
| ErrKeyFormat (key : string)
| ErrNoMeta
| ErrStore (msg : string).

(** errors.IsNotFound: false on the nil error. *)
Definition IsNotFound (err : option error) : bool :=
  match err with
  | Some (ErrNotFound _) => true
  | _ => false
  end.

(** [err != nil] *)
Definition notNil {A} (p : option A) : bool :=
  match p with Some _ => true | None => false end.

(** The objects an informer hands to an event handler ([interface{}]). *)
Inductive Obj :=
| ObjService (s : Service)
| ObjIngress (i : Ingress)
| ObjExplicitKey (k : string)
| ObjTombstone (key : string).          (* cache.DeletedFinalStateUnknown *)

(** ** Library functions the controller calls *)

(** strings.Split(s, "/"): always at least one part. *)
Fixpoint splitSlash (s : string) : list string :=
  match s with
  | EmptyString => [EmptyString]
  | String c rest =>
      if Ascii.eqb c "/"%char then EmptyString :: splitSlash rest
      else match splitSlash rest with
           | p :: ps => String c p :: ps
           | [] => [String c EmptyString]
           end
  end.

(** Modelled from the spec: cache.SplitMetaNamespaceKey belongs to client-go,
    which is not under src/.  Section 3 fixes the key as namespace and name
    joined by one separator; the library accepts a bare name (empty namespace)
    and rejects a key with more than one separator. *)
Definition SplitMetaNamespaceKey (key : string) : string * string * option error :=
  match splitSlash key with
  | [name] => ("", name, None)
  | [namespace; name] => (namespace, name, None)
  | _ => ("", "", Some (ErrKeyFormat key))
  end.

(** Modelled from the spec: cache.MetaNamespaceKeyFunc belongs to client-go.
    An object with metadata yields namespace/name (or the bare name when the
    namespace is empty), an explicit key yields itself, anything else yields
    the empty key together with an error. *)
Definition MetaNamespaceKeyFunc (obj : Obj) : string * option error :=
  let keyOf (m : ObjectMeta) :=
    if Nat.ltb 0 (String.length (om_Namespace m))
    then om_Namespace m +:+ "/" +:+ om_Name m
    else om_Name m in
  match obj with
  | ObjExplicitKey k => (k, None)
  | ObjService s => (keyOf (svc_ObjectMeta s), None)
  | ObjIngress i => (keyOf (ing_ObjectMeta i), None)
  | ObjTombstone _ => ("", Some ErrNoMeta)
  end.

(** Modelled from the spec: metav1.GetControllerOf belongs to apimachinery.
    The controlling reference is the first owner reference whose Controller
    flag is set and true. *)
Fixpoint GetControllerOf (refs : list OwnerReference) : option OwnerReference :=
  match refs with
  | [] => None
  | r :: rest =>
      match or_Controller r with
      | Some true => Some r
      | _ => GetControllerOf rest
      end
  end.

(** Modelled from the spec: metav1.NewControllerRef belongs to apimachinery;
    section 4.4 step 5 gives the reference as (kind, name, uid,
    controller=true). *)
Definition NewControllerRef (owner : ObjectMeta) (apiVersion kind : string) : OwnerReference :=
  {| or_APIVersion := apiVersion;
     or_Kind := kind;
     or_Name := om_Name owner;
     or_UID := om_UID owner;
     or_Controller := Some true;
     or_BlockOwnerDeletion := Some true |}.

(** ** The work queue *)

(** Modelled from the spec: workqueue.RateLimitingInterface belongs to
    client-go, which is not under src/.  Section 4.1 gives its contract: a
    pending list without duplicates, a set of keys awaiting processing
    (dirty), a set of keys in flight (processing) and a per-key requeue
    counter.  The delay of AddRateLimited is not modelled: the delayed key is
    handed to Add at once, which leaves the same queue once Done has run. *)
Record Queue := mkQueue {
  q_queue : list string;
  q_dirty : gset string;
  q_processing : gset string;
  q_failures : gmap string nat;
  q_shuttingDown : bool
}.

Definition emptyQueue : Queue :=
  {| q_queue := []; q_dirty := ∅; q_processing := ∅;
     q_failures := ∅; q_shuttingDown := false |}.

Module workqueue.

Definition Add (item : string) (q : Queue) : Queue :=
  if q_shuttingDown q then q
  else if decide (item ∈ q_dirty q) then q
  else if decide (item ∈ q_processing q) then
    {| q_queue := q_queue q; q_dirty := {[item]} ∪ q_dirty q;
       q_processing := q_processing q; q_failures := q_failures q;
       q_shuttingDown := q_shuttingDown q |}
  else
    {| q_queue := q_queue q ++ [item]; q_dirty := {[item]} ∪ q_dirty q;
       q_processing := q_processing q; q_failures := q_failures q;
       q_shuttingDown := q_shuttingDown q |}.

(** What a call of Get does: hand out the oldest pending key, report
    shutdown (at once, as section 4.1 has it), or wait on an empty queue. *)
Inductive GetResult :=
| GotItem (item : string) (q' : Queue)
| GotShutDown
| Waits.

Definition Get (q : Queue) : GetResult :=
  if q_shuttingDown q then GotShutDown
  else match q_queue q with
       | [] => Waits
       | item :: rest =>
           GotItem item
             {| q_queue := rest; q_dirty := q_dirty q ∖ {[item]};
                q_processing := {[item]} ∪ q_processing q;
                q_failures := q_failures q;
                q_shuttingDown := q_shuttingDown q |}
       end.

Definition Done (item : string) (q : Queue) : Queue :=
  {| q_queue := if decide (item ∈ q_dirty q) then q_queue q ++ [item]
                else q_queue q;
     q_dirty := q_dirty q;
     q_processing := q_processing q ∖ {[item]};
     q_failures := q_failures q;
     q_shuttingDown := q_shuttingDown q |}.

Definition NumRequeues (item : string) (q : Queue) : nat :=
  default 0 (q_failures q !! item).

Definition Forget (item : string) (q : Queue) : Queue :=
  {| q_queue := q_queue q; q_dirty := q_dirty q;
     q_processing := q_processing q;
     q_failures := delete item (q_failures q);
     q_shuttingDown := q_shuttingDown q |}.

Definition AddRateLimited (item : string) (q : Queue) : Queue :=
  Add item
    {| q_queue := q_queue q; q_dirty := q_dirty q;
       q_processing := q_processing q;
       q_failures := <[item := S (NumRequeues item q)]> (q_failures q);
       q_shuttingDown := q_shuttingDown q |}.

End workqueue.

(** ** Effects *)

(** Every call that leaves the controller, in the order it is made. *)
Inductive Event :=
| EvAdd (key : string)
| EvGet
| EvDone (key : string)
| EvNumRequeues (key : string)
| EvAddRateLimited (key : string)
| EvForget (key : string)
| EvServiceGet (namespace name : string)
| EvIngressGet (namespace name : string)
| EvCreate (namespace : string) (ig : Ingress)
| EvDelete (namespace name : string)
| EvHandleError (err : error).

Record State := mkState { st_queue : Queue; st_log : list Event }.

(** The outcome of running a piece of the controller from a state: it
    returns, it panics, or it waits forever in Get. *)
Inductive Res (A : Type) :=
| Ok (a : A) (s : State)
| Panic (s : State)
| Blocked (s : State).
Arguments Ok {A} a s.
Arguments Panic {A} s.
Arguments Blocked {A} s.

Definition M (A : Type) := State → Res A.

#[global] Instance M_ret : MRet M := fun A a s => Ok a s.

#[global] Instance M_bind : MBind M := fun A B k m s =>
  match m s with
  | Ok a s' => k a s'
  | Panic s' => Panic s'
  | Blocked s' => Blocked s'
  end.

Definition panic {A} : M A := fun s => Panic s.

(** Append events to the log. *)
Definition record (evs : list Event) (s : State) : State :=
  {| st_queue := st_queue s; st_log := st_log s ++ evs |}.

Definition emit (e : Event) : M unit := fun s => Ok tt (record [e] s).

Definition onQueue (f : Queue → Queue) : M unit := fun s =>
  Ok tt {| st_queue := f (st_queue s); st_log := st_log s |}.

(** Dereferencing a pointer, or asserting the type of an interface value:
    nil panics. *)
Definition deref {A} (p : option A) : M A :=
  match p with
  | Some a => mret a
  | None => panic
  end.

(** [defer d] followed by [body]: [d] runs when [body] returns and also when
    it panics. *)
Definition defer {A} (d : M unit) (body : M A) : M A := fun s =>
  match body s with
  | Ok a s1 =>
      match d s1 with
      | Ok _ s2 => Ok a s2
      | Panic s2 => Panic s2
      | Blocked s2 => Blocked s2
      end
  | Panic s1 =>
      match d s1 with
      | Ok _ s2 => Panic s2
      | Panic s2 => Panic s2
      | Blocked s2 => Blocked s2
      end
  | Blocked s1 => Blocked s1
  end.

(** The queue calls, logged. *)
Definition queueAdd (key : string) : M unit :=
  emit (EvAdd key) ;; onQueue (workqueue.Add key).

Definition queueGet : M (option string * bool) := fun s =>
  match workqueue.Get (st_queue s) with
  | workqueue.GotItem item q' =>
      Ok (Some item, false) {| st_queue := q'; st_log := st_log s ++ [EvGet] |}
  | workqueue.GotShutDown => Ok (None, true) (record [EvGet] s)
  | workqueue.Waits => Blocked (record [EvGet] s)
  end.

Definition queueDone (item : option string) : M unit :=
  match item with
  | Some key => emit (EvDone key) ;; onQueue (workqueue.Done key)
  | None => mret tt
  end.

Definition queueNumRequeues (key : string) : M nat := fun s =>
  Ok (workqueue.NumRequeues key (st_queue s)) (record [EvNumRequeues key] s).

Definition queueAddRateLimited (key : string) : M unit :=
  emit (EvAddRateLimited key) ;; onQueue (workqueue.AddRateLimited key).

Definition queueForget (key : string) : M unit :=
  emit (EvForget key) ;; onQueue (workqueue.Forget key).

(** runtime.HandleError: the process-wide error sink. *)
Definition HandleError (err : error) : M unit := emit (EvHandleError err).

(** ** The controller *)

Definition workNum : nat := 5.
Definition maxRetry : nat := 10.

(** client.NetworkingV1().Ingresses(ns): the two calls the controller makes. *)
Record IngressClient := mkIngressClient {
  Create : string → Ingress → option Ingress * option error;
  Delete : string → string → option error
}.

(** The queue field of the Go struct is the mutable part and lives in
    [State]; the listers and the client answer as functions of the call. *)
Record controller := mkController {
  client : IngressClient;
  ingressLister : string → string → option Ingress * option error;
  serviceLister : string → string → option Service * option error
}.

Definition servicesGet (c : controller) (namespace name : string)
  : M (option Service * option error) :=
  emit (EvServiceGet namespace name) ;; mret (serviceLister c namespace name).

Definition ingressesGet (c : controller) (namespace name : string)
  : M (option Ingress * option error) :=
  emit (EvIngressGet namespace name) ;; mret (ingressLister c namespace name).

Definition ingressesCreate (c : controller) (namespace : string) (ig : Ingress)
  : M (option Ingress * option error) :=
  emit (EvCreate namespace ig) ;; mret (Create (client c) namespace ig).

Definition ingressesDelete (c : controller) (namespace name : string)
  : M (option error) :=
  emit (EvDelete namespace name) ;; mret (Delete (client c) namespace name).

Definition enqueue (obj : Obj) : M unit :=
  let '(key, err) := MetaNamespaceKeyFunc obj in
  match err with
  | Some e => HandleError e
  | None => mret tt
  end ;;
  queueAdd key.

Definition addService (obj : Obj) : M unit := enqueue obj.

(** reflect.DeepEqual belongs to the Go library and compares every field of
    the two objects, also those this model leaves out; it is taken as a
    parameter. *)
Definition updateService (DeepEqual : Obj → Obj → bool) (oldObj newObj : Obj) : M unit :=
  match newObj with
  | ObjService _ =>
      if DeepEqual oldObj newObj then mret tt
      else enqueue newObj
  | _ => mret tt
  end.

Definition deleteIngress (obj : Obj) : M unit :=
  ingress ← match obj with
            | ObjIngress i => mret i
            | _ => panic
            end;
  let ownerReference := GetControllerOf (om_OwnerReferences (ing_ObjectMeta ingress)) in
  match ownerReference with
  | None => mret tt
  | Some ref =>
      if negb (String.eqb (or_Kind ref) "Service") then mret tt
      else queueAdd (om_Namespace (ing_ObjectMeta ingress) +:+ "/"
                     +:+ om_Name (ing_ObjectMeta ingress))
  end.

(** The handlers NewController registers.  cache.ResourceEventHandlerFuncs
    ignores a notification whose function is left nil: the service informer
    has AddFunc and UpdateFunc, the ingress informer DeleteFunc only. *)
Inductive Informer := ServiceInformer | IngressInformer.

Inductive Notification :=
| OnAdd (obj : Obj)
| OnUpdate (oldObj newObj : Obj)
| OnDelete (obj : Obj).

Definition NewController (DeepEqual : Obj → Obj → bool)
    (informer : Informer) (n : Notification) : M unit :=
  match informer, n with
  | ServiceInformer, OnAdd obj => addService obj
  | ServiceInformer, OnUpdate oldObj newObj => updateService DeepEqual oldObj newObj
  | IngressInformer, OnDelete obj => deleteIngress obj
  | _, _ => mret tt
  end.

Definition constructIngress (service : Service) : Ingress :=
  let pathType := PathTypePrefix in
  {| ing_ObjectMeta :=
       {| om_Name := om_Name (svc_ObjectMeta service);
          om_Namespace := om_Namespace (svc_ObjectMeta service);
          om_UID := "";
          om_Annotations := ∅;
          om_OwnerReferences :=
            [NewControllerRef (svc_ObjectMeta service) "v1" "Service"] |};
     ing_Spec :=
       {| is_Rules :=
            [ {| ir_Host := "example.com";
                 ir_HTTP := Some
                   {| hirv_Paths :=
                        [ {| hip_Path := "/";
                             hip_PathType := Some pathType;
                             hip_Backend :=
                               {| ib_Service := Some
                                    {| isb_Name := om_Name (svc_ObjectMeta service);
                                       isb_Port := {| sbp_Name := "";
                                                      sbp_Number := 80 |} |} |} |} ] |} |} ] |} |}.

Definition syncService (c : controller) (key : string) : M (option error) :=
  let '(nameSpaceKey, name, err) := SplitMetaNamespaceKey key in
  if notNil err then mret err else
  '(service, err) ← servicesGet c nameSpaceKey name;
  if IsNotFound err then mret None else
  svc ← deref service;
  let ok := bool_decide (is_Some (om_Annotations (svc_ObjectMeta svc) !! "ingress/http")) in
  '(ingress, err) ← ingressesGet c nameSpaceKey name;
  if notNil err && negb (IsNotFound err) then mret err else
  if ok && IsNotFound err then
    let ig := constructIngress svc in
    '(_, err) ← ingressesCreate c nameSpaceKey ig;
    if notNil err then mret err else mret None
  else if negb ok && notNil ingress then
    err ← ingressesDelete c nameSpaceKey name;
    if notNil err then mret err else mret None
  else mret None.

Definition handlerError (key : string) (err : error) : M unit :=
  n ← queueNumRequeues key;
  (if Nat.leb n maxRetry then queueAddRateLimited key else mret tt) ;;
  HandleError err ;;
  queueForget key.

Definition processNextItem (c : controller) : M bool :=
  '(item, shutDown) ← queueGet;
  if shutDown : bool then mret false else
  defer (queueDone item)
    (key ← deref item;
     err ← syncService c key;
     match err with
     | Some e => handlerError key e ;; mret false
     | None => mret true
     end).

(** [for c.processNextItem() {}].  The loop is bounded by [fuel]; [None]
    means the bound was reached with the loop still running. *)
Fixpoint worker (fuel : nat) (c : controller) (s : State) : option (Res unit) :=
  match fuel with
  | O => None
  | S fuel' =>
      match processNextItem c s with
      | Ok true s' => worker fuel' c s'
      | Ok false s' => Some (Ok tt s')
      | Panic s' => Some (Panic s')
      | Blocked s' => Some (Blocked s')
      end
  end.

(** ** Observing a run *)

Definition isStoreCall (e : Event) : bool :=
  match e with
  | EvCreate _ _ | EvDelete _ _ => true
  | _ => false
  end.

Definition isListerCall (e : Event) : bool :=
  match e with
  | EvServiceGet _ _ | EvIngressGet _ _ => true
  | _ => false
  end.

Definition finalState {A} (r : Res A) : State :=
  match r with
  | Ok _ s' | Panic s' | Blocked s' => s'
  end.

(** The events a computation adds to the log when run from [s]. *)
Definition issued {A} (m : M A) (s : State) : list Event :=
  drop (List.length (st_log s)) (st_log (finalState (m s))).

(** The Create and Delete calls among them. *)
Definition storeCalls {A} (m : M A) (s : State) : list Event :=
  List.filter isStoreCall (issued m s).

(** The value returned, if the computation returns. *)
Definition returned {A} (m : M A) (s : State) : option A :=
  match m s with
  | Ok a _ => Some a
  | _ => None
  end.

Definition panics {A} (m : M A) (s : State) : Prop :=
  match m s with
  | Panic _ => True
  | _ => False
  end.

Definition isAdd (e : Event) : bool :=
  match e with
  | EvAdd _ => true
  | _ => false
  end.

Definition isAddRateLimited (e : Event) : bool :=
  match e with
  | EvAddRateLimited _ => true
  | _ => false
  end.

(** The state queueAdd leaves behind. *)
Definition added (key : string) (s : State) : State :=
  {| st_queue := workqueue.Add key (st_queue s); st_log := st_log s ++ [EvAdd key] |}.

(** What handlerError does to the queue and what it logs. *)
Definition retryEvents (key : string) (q : Queue) : list Event :=
  if Nat.leb (workqueue.NumRequeues key q) maxRetry then [EvAddRateLimited key] else [].

Definition retryQueue (key : string) (q : Queue) : Queue :=
  workqueue.Forget key
    (if Nat.leb (workqueue.NumRequeues key q) maxRetry
     then workqueue.AddRateLimited key q else q).

(** The states Get and Done leave behind. *)
Definition got (q' : Queue) (s : State) : State :=
  {| st_queue := q'; st_log := st_log s ++ [EvGet] |}.

Definition done (key : string) (s : State) : State :=
  {| st_queue := workqueue.Done key (st_queue s); st_log := st_log s ++ [EvDone key] |}.

(** The state handlerError leaves behind. *)
Definition handled (key : string) (err : error) (s : State) : State :=
  {| st_queue := retryQueue key (st_queue s);
     st_log := st_log s ++ [EvNumRequeues key] ++ retryEvents key (st_queue s)
                 ++ [EvHandleError err; EvForget key] |}.

(** The calls of one failed attempt on [key], where [evs] are the calls of
    syncService and [e] is its error. *)
Definition attemptEvents (key : string) (e : error) (evs : list Event) : list Event :=
  [EvGet] ++ evs ++ [EvNumRequeues key; EvAddRateLimited key;
                     EvHandleError e; EvForget key; EvDone key].

(** The workers keep calling processNextItem: a worker whose loop has ended
    is started again by wait.Until, and its siblings run the same function.
    [attempts n] is the state after [n] such calls in a row. *)
Fixpoint attempts (n : nat) (c : controller) (s : State) : State :=
  match n with
  | O => s
  | S n' => attempts n' c (finalState (processNextItem c s))
  end.

(** The queue as a failed attempt finds and leaves it: the key is the one
    pending item and its requeue counter is unset. *)
Definition retryPending (key : string) (q : Queue) : Prop :=
  q_queue q = [key] ∧ key ∈ q_dirty q ∧ (key ∉ q_processing q) ∧
  q_failures q !! key = None ∧ q_shuttingDown q = false.


Definition isDone (e : Event) : bool :=
  match e with
  | EvDone _ => true
  | _ => false
  end.

(** The calls a handler may make: Add on the queue and the error sink. *)
Definition isHandlerCall (e : Event) : bool :=
  match e with
  | EvAdd _ | EvHandleError _ => true
  | _ => false
  end.

(** A namespace or name that does not contain the key separator. *)
Fixpoint noSlash (s : string) : bool :=
  match s with
  | EmptyString => true
  | String c rest => negb (Ascii.eqb c "/"%char) && noSlash rest
  end.

(** A queue nobody has touched yet, under any log. *)
Definition idle (log : list Event) : State :=
  {| st_queue := emptyQueue; st_log := log |}.

(** The calls of one run of syncService: reads of the two listers and at
    most one store call. *)
Definition reconcileCalls (evs : list Event) : Prop :=
  Forall (fun e => isListerCall e || isStoreCall e = true) evs ∧
  (List.length (List.filter isStoreCall evs) ≤ 1)%nat ∧
  List.filter isDone evs = [].

(** ** Example clusters *)

Module Examples.

Definition meta (namespace name : string) (annotations : gmap string string)
  (owners : list OwnerReference) : ObjectMeta :=
  {| om_Name := name; om_Namespace := namespace; om_UID := "uid-" +:+ name;
     om_Annotations := annotations; om_OwnerReferences := owners |}.

(** A Service that asks for an Ingress, and one that does not. *)
Definition web : Service :=
  {| svc_ObjectMeta := meta "default" "web" {[ "ingress/http" := "true" ]} [] |}.
Definition db : Service :=
  {| svc_ObjectMeta := meta "default" "db" ∅ [] |}.

Definition services (namespace name : string) : option Service * option error :=
  if String.eqb namespace "default" && String.eqb name "web" then (Some web, None)
  else if String.eqb namespace "default" && String.eqb name "db" then (Some db, None)
  else (None, Some (ErrNotFound name)).

Definition noIngresses (namespace name : string) : option Ingress * option error :=
  (None, Some (ErrNotFound name)).

(** The ingress lister of a cluster in which both Services have an Ingress. *)
Definition allIngresses (namespace name : string) : option Ingress * option error :=
  if String.eqb namespace "default" && String.eqb name "web"
  then (Some (constructIngress web), None)
  else if String.eqb namespace "default" && String.eqb name "db"
  then (Some (constructIngress db), None)
  else (None, Some (ErrNotFound name)).

Definition goodClient : IngressClient :=
  {| Create := fun _ ig => (Some ig, None); Delete := fun _ _ => None |}.

(** A store that refuses every mutation. *)
Definition failingClient : IngressClient :=
  {| Create := fun _ _ => (None, Some (ErrStore "create refused"));
     Delete := fun _ _ => Some (ErrStore "delete refused") |}.

(** No Ingress exists yet, the store accepts calls. *)
Definition fresh : controller :=
  {| client := goodClient; ingressLister := noIngresses; serviceLister := services |}.

(** Every Service has its Ingress, the store accepts calls. *)
Definition populated : controller :=
  {| client := goodClient; ingressLister := allIngresses; serviceLister := services |}.

(** No Ingress exists and Create fails every time. *)
Definition stuck : controller :=
  {| client := failingClient; ingressLister := noIngresses; serviceLister := services |}.

(** The service lister itself is failing (not a not-found answer). *)
Definition brokenLister : controller :=
  {| client := goodClient; ingressLister := noIngresses;
     serviceLister := fun _ _ => (None, Some (ErrStore "index unavailable")) |}.

Definition start (keys : list string) : State :=
  {| st_queue := foldl (fun q k => workqueue.Add k q) emptyQueue keys;
     st_log := [] |}.

End Examples.

(** ** Basic facts about runs *)

Lemma issued_record {A} (m : M A) (s : State) (r : Res A) (evs : list Event) :
  m s = r → st_log (finalState r) = st_log s ++ evs → issued m s = evs.
Proof.
  intros <- Hlog. unfold issued. rewrite Hlog. apply drop_app_length.
Qed.

(** Unfolds the monad and the logged primitive calls. *)
Ltac run :=
  repeat (progress (cbn [mbind mret M_bind M_ret finalState st_log st_queue
                         fst snd notNil negb andb orb];
                    unfold servicesGet, ingressesGet, ingressesCreate,
                      ingressesDelete, queueAdd, queueDone, queueNumRequeues,
                      queueAddRateLimited, queueForget, HandleError, emit,
                      onQueue, deref, panic, record, mbind, mret, M_bind, M_ret)).

Ltac finish := rewrite <- ?app_assoc; reflexivity.

(** ** The paths of syncService *)

Section SyncServicePaths.
Variable c : controller.
Variables key nameSpaceKey name : string.
Variable s : State.

Lemma syncService_bad_key e :
  SplitMetaNamespaceKey key = (nameSpaceKey, name, Some e) →
  syncService c key s = Ok (Some e) s.
Proof. intros Hk. unfold syncService. rewrite Hk. reflexivity. Qed.

Hypothesis Hkey : SplitMetaNamespaceKey key = (nameSpaceKey, name, None).

Lemma syncService_primary_gone service err :
  serviceLister c nameSpaceKey name = (service, err) →
  IsNotFound err = true →
  syncService c key s = Ok None (record [EvServiceGet nameSpaceKey name] s).
Proof.
  intros Hs Hnf. unfold syncService. rewrite Hkey. run. rewrite Hs. run.
  rewrite Hnf. reflexivity.
Qed.

Lemma syncService_nil_service err :
  serviceLister c nameSpaceKey name = (None, err) →
  IsNotFound err = false →
  syncService c key s = Panic (record [EvServiceGet nameSpaceKey name] s).
Proof.
  intros Hs Hnf. unfold syncService. rewrite Hkey. run. rewrite Hs. run.
  rewrite Hnf. reflexivity.
Qed.

Section ServiceFound.
Variable svc : Service.
Variable serr : option error.
Hypothesis Hsvc : serviceLister c nameSpaceKey name = (Some svc, serr).
Hypothesis Hserr : IsNotFound serr = false.

Let reads := [EvServiceGet nameSpaceKey name; EvIngressGet nameSpaceKey name].

Lemma syncService_lookup_error ingress e :
  ingressLister c nameSpaceKey name = (ingress, Some e) →
  IsNotFound (Some e) = false →
  syncService c key s = Ok (Some e) (record reads s).
Proof.
  intros Hi Hnf. unfold syncService. rewrite Hkey. run. rewrite Hsvc. run.
  rewrite Hserr. run. rewrite Hi. run. rewrite Hnf. run. finish.
Qed.

Lemma syncService_create ingress err :
  is_Some (om_Annotations (svc_ObjectMeta svc) !! "ingress/http") →
  ingressLister c nameSpaceKey name = (ingress, err) →
  IsNotFound err = true →
  syncService c key s =
    Ok (snd (Create (client c) nameSpaceKey (constructIngress svc)))
       (record (reads ++ [EvCreate nameSpaceKey (constructIngress svc)]) s).
Proof.
  intros Ha Hi Hnf. unfold syncService. rewrite Hkey. run. rewrite Hsvc. run.
  rewrite Hserr. run. rewrite Hi. run. rewrite Hnf.
  rewrite bool_decide_eq_true_2 by done. run.
  destruct (notNil err); run;
    destruct (Create _ _ _) as [r [e|]]; run; finish.
Qed.

Lemma syncService_converged ingress :
  is_Some (om_Annotations (svc_ObjectMeta svc) !! "ingress/http") →
  ingressLister c nameSpaceKey name = (ingress, None) →
  syncService c key s = Ok None (record reads s).
Proof.
  intros Ha Hi. unfold syncService. rewrite Hkey. run. rewrite Hsvc. run.
  rewrite Hserr. run. rewrite Hi. run.
  rewrite bool_decide_eq_true_2 by done. run. finish.
Qed.

Lemma syncService_delete ing err :
  om_Annotations (svc_ObjectMeta svc) !! "ingress/http" = None →
  ingressLister c nameSpaceKey name = (Some ing, err) →
  (err = None ∨ IsNotFound err = true) →
  syncService c key s =
    Ok (Delete (client c) nameSpaceKey name)
       (record (reads ++ [EvDelete nameSpaceKey name]) s).
Proof.
  intros Ha Hi Herr. unfold syncService. rewrite Hkey. run. rewrite Hsvc. run.
  rewrite Hserr. run. rewrite Hi. run.
  rewrite bool_decide_eq_false_2 by (rewrite Ha; intros [? ?]; discriminate).
  assert (notNil err && negb (IsNotFound err) = false) as ->.
  { destruct Herr as [-> | ->]; [reflexivity | apply andb_false_r]. }
  run. destruct (Delete _ _ _) as [e|]; run; finish.
Qed.

Lemma syncService_nothing_to_delete err :
  om_Annotations (svc_ObjectMeta svc) !! "ingress/http" = None →
  ingressLister c nameSpaceKey name = (None, err) →
  (err = None ∨ IsNotFound err = true) →
  syncService c key s = Ok None (record reads s).
Proof.
  intros Ha Hi Herr. unfold syncService. rewrite Hkey. run. rewrite Hsvc. run.
  rewrite Hserr. run. rewrite Hi. run.
  rewrite bool_decide_eq_false_2 by (rewrite Ha; intros [? ?]; discriminate).
  assert (notNil err && negb (IsNotFound err) = false) as ->.
  { destruct Herr as [-> | ->]; [reflexivity | apply andb_false_r]. }
  run. finish.
Qed.

End ServiceFound.
End SyncServicePaths.

Lemma run_ok {A} (m : M A) (s : State) (a : A) (evs : list Event) :
  m s = Ok a (record evs s) →
  returned m s = Some a ∧ issued m s = evs ∧
  storeCalls m s = List.filter isStoreCall evs.
Proof.
  intros Hrun. unfold storeCalls.
  rewrite (issued_record m s _ evs Hrun eq_refl).
  unfold returned. rewrite Hrun. auto.
Qed.

Lemma run_panic {A} (m : M A) (s : State) (evs : list Event) :
  m s = Panic (record evs s) →
  panics m s ∧ returned m s = None ∧ issued m s = evs.
Proof.
  intros Hrun. rewrite (issued_record m s _ evs Hrun eq_refl).
  unfold panics, returned. rewrite Hrun. auto.
Qed.

(** ** The reconciler *)

(** C1: for a key that splits into (namespace, name): when the Service is not
    found, syncService returns nil and issues no store call; when it is found,
    the enable-annotation and the Ingress lookup select the action: one Create
    of the constructed Ingress (annotation present, Ingress not found), one
    Delete of (namespace, name) (annotation absent, Ingress found), and no
    store call in the two other cases.  The value returned is the error of
    the issued call, hence nil when that call succeeds, and nil when no call
    is issued. *)
Theorem syncService_decision_table (c : controller) (key namespace name : string) (s : State) :
  SplitMetaNamespaceKey key = (namespace, name, None) →
  (∀ what, serviceLister c namespace name = (None, Some (ErrNotFound what)) →
     returned (syncService c key) s = Some None ∧
     storeCalls (syncService c key) s = []) ∧
  (∀ svc, serviceLister c namespace name = (Some svc, None) →
     let annotation := om_Annotations (svc_ObjectMeta svc) !! "ingress/http" in
     (∀ what, is_Some annotation →
        ingressLister c namespace name = (None, Some (ErrNotFound what)) →
        storeCalls (syncService c key) s = [EvCreate namespace (constructIngress svc)] ∧
        returned (syncService c key) s =
          Some (snd (Create (client c) namespace (constructIngress svc)))) ∧
     (∀ ing, is_Some annotation →
        ingressLister c namespace name = (Some ing, None) →
        storeCalls (syncService c key) s = [] ∧
        returned (syncService c key) s = Some None) ∧
     (∀ ing, annotation = None →
        ingressLister c namespace name = (Some ing, None) →
        storeCalls (syncService c key) s = [EvDelete namespace name] ∧
        returned (syncService c key) s = Some (Delete (client c) namespace name)) ∧
     (∀ what, annotation = None →
        ingressLister c namespace name = (None, Some (ErrNotFound what)) →
        storeCalls (syncService c key) s = [] ∧
        returned (syncService c key) s = Some None)).
Proof.
  intros Hkey. split.
  - intros what Hs.
    destruct (run_ok _ _ _ _
      (syncService_primary_gone c key namespace name s Hkey _ _ Hs eq_refl))
      as (Hr & _ & Hc).
    split; [exact Hr | exact Hc].
  - intros svc Hs annotation.
    pose proof (syncService_create c key namespace name s Hkey svc None Hs eq_refl) as Hcreate.
    pose proof (syncService_converged c key namespace name s Hkey svc None Hs eq_refl) as Hconv.
    pose proof (syncService_delete c key namespace name s Hkey svc None Hs eq_refl) as Hdel.
    pose proof (syncService_nothing_to_delete c key namespace name s Hkey svc None Hs eq_refl) as Hnone.
    split; [| split; [| split]].
    + intros what Ha Hi.
      destruct (run_ok _ _ _ _ (Hcreate _ _ Ha Hi eq_refl)) as (Hr & _ & Hc).
      split; [exact Hc | exact Hr].
    + intros ing Ha Hi.
      destruct (run_ok _ _ _ _ (Hconv _ Ha Hi)) as (Hr & _ & Hc).
      split; [exact Hc | exact Hr].
    + intros ing Ha Hi.
      destruct (run_ok _ _ _ _ (Hdel _ _ Ha Hi (or_introl eq_refl))) as (Hr & _ & Hc).
      split; [exact Hc | exact Hr].
    + intros what Ha Hi.
      destruct (run_ok _ _ _ _ (Hnone _ Ha Hi (or_intror eq_refl))) as (Hr & _ & Hc).
      split; [exact Hc | exact Hr].
Qed.

Lemma syncService_decision_table_witness :
  SplitMetaNamespaceKey "default/web" = ("default", "web", None) ∧
  storeCalls (syncService Examples.fresh "default/web") (Examples.start ["default/web"])
    = [EvCreate "default" (constructIngress Examples.web)] ∧
  returned (syncService Examples.fresh "default/web") (Examples.start ["default/web"])
    = Some None.
Proof.
  split; [reflexivity |].
  apply (proj1 (proj2 (syncService_decision_table Examples.fresh "default/web"
                         "default" "web" (Examples.start ["default/web"]) eq_refl)
                 Examples.web eq_refl) "web").
  - exists "true". vm_compute. reflexivity.
  - reflexivity.
Defined.

(** C9: the Ingress built for a Service has the Service's name and namespace,
    is controlled by that Service (its controlling owner reference has kind
    Service, the Service's name and uid, controller=true), and carries exactly
    one rule with the single path "/" whose backend is the Service's own name
    on port 80, whatever the Service is. *)
Theorem constructIngress_shape (service : Service) :
  let ig := constructIngress service in
  let owner := svc_ObjectMeta service in
  om_Name (ing_ObjectMeta ig) = om_Name owner ∧
  om_Namespace (ing_ObjectMeta ig) = om_Namespace owner ∧
  (∃ ref, ref ∈ om_OwnerReferences (ing_ObjectMeta ig) ∧
          GetControllerOf (om_OwnerReferences (ing_ObjectMeta ig)) = Some ref ∧
          or_Kind ref = "Service" ∧ or_Name ref = om_Name owner ∧
          or_UID ref = om_UID owner ∧ or_Controller ref = Some true) ∧
  (∃ rule path,
      is_Rules (ing_Spec ig) = [rule] ∧
      ir_HTTP rule = Some {| hirv_Paths := [path] |} ∧
      hip_Path path = "/" ∧
      ib_Service (hip_Backend path) =
        Some {| isb_Name := om_Name owner;
                isb_Port := {| sbp_Name := ""; sbp_Number := 80 |} |}).
Proof.
  cbn zeta. repeat split.
  - eexists. split; [apply list_elem_of_singleton; reflexivity |].
    repeat split.
  - do 2 eexists. repeat split.
Qed.

(** ** The dispatcher *)

Lemma queueAdd_run (key : string) (s : State) : queueAdd key s = Ok tt (added key s).
Proof. reflexivity. Qed.

Lemma deleteIngress_run (ingress : Ingress) (s : State) :
  deleteIngress (ObjIngress ingress) s =
    match GetControllerOf (om_OwnerReferences (ing_ObjectMeta ingress)) with
    | Some ref =>
        if String.eqb (or_Kind ref) "Service"
        then queueAdd (om_Namespace (ing_ObjectMeta ingress) +:+ "/"
                       +:+ om_Name (ing_ObjectMeta ingress)) s
        else Ok tt s
    | None => Ok tt s
    end.
Proof.
  unfold deleteIngress. cbn [mbind mret M_bind M_ret]. unfold mbind, mret, M_bind, M_ret.
  destruct (GetControllerOf _) as [ref |]; [| reflexivity].
  destruct (String.eqb _ _); reflexivity.
Qed.

(** X17: when the delete notification delivers the Ingress object itself,
    nothing is enqueued (no queue call at all, the state is untouched) if the
    Ingress has no controlling owner reference or if that reference is not of
    kind Service; otherwise the one call made is Add of namespace + "/" + name
    of the deleted Ingress.  A notification that delivers a tombstone is not
    covered: there deleteIngress panics. *)
Theorem deleteIngress_ownership_filter (ingress : Ingress) (s : State) :
  let owner := GetControllerOf (om_OwnerReferences (ing_ObjectMeta ingress)) in
  let key := om_Namespace (ing_ObjectMeta ingress) +:+ "/"
             +:+ om_Name (ing_ObjectMeta ingress) in
  (owner = None → deleteIngress (ObjIngress ingress) s = Ok tt s) ∧
  (∀ ref, owner = Some ref → or_Kind ref ≠ "Service" →
     deleteIngress (ObjIngress ingress) s = Ok tt s) ∧
  (∀ ref, owner = Some ref → or_Kind ref = "Service" →
     issued (deleteIngress (ObjIngress ingress)) s = [EvAdd key] ∧
     deleteIngress (ObjIngress ingress) s =
       Ok tt (added key s)).
Proof.
  cbn zeta. rewrite deleteIngress_run. split; [| split].
  - intros ->. reflexivity.
  - intros ref -> Hkind.
    destruct (String.eqb_spec (or_Kind ref) "Service") as [E | _]; [done |].
    reflexivity.
  - intros ref Href Hkind.
    assert (deleteIngress (ObjIngress ingress) s =
            Ok tt (added (om_Namespace (ing_ObjectMeta ingress) +:+ "/"
                          +:+ om_Name (ing_ObjectMeta ingress)) s)) as Hrun.
    { rewrite deleteIngress_run, Href, Hkind. reflexivity. }
    split; [exact (issued_record _ _ _ _ Hrun eq_refl) |].
    rewrite Href, Hkind. reflexivity.
Qed.

Lemma deleteIngress_ownership_filter_witness :
  GetControllerOf (om_OwnerReferences (ing_ObjectMeta (constructIngress Examples.web)))
    = Some (NewControllerRef (svc_ObjectMeta Examples.web) "v1" "Service") ∧
  issued (deleteIngress (ObjIngress (constructIngress Examples.web))) (Examples.start [])
    = [EvAdd "default/web"].
Proof.
  split; [reflexivity |].
  apply (proj2 (proj2 (deleteIngress_ownership_filter
                         (constructIngress Examples.web) (Examples.start [])))
           (NewControllerRef (svc_ObjectMeta Examples.web) "v1" "Service")
           eq_refl eq_refl).
Defined.

(** C8 (the code at the failing input): the informer reports the deletion of
    the Ingress default/web, which the Service default/web controls, with a
    tombstone instead of the Ingress object.  deleteIngress asserts that its
    argument is an Ingress without checking and panics: the key of the owned
    Ingress is not enqueued, no call is made at all, whereas the same deletion
    delivered as the object itself enqueues default/web.  updateService,
    handed the same tombstone, checks the type and returns. *)
Theorem deleteIngress_panics_on_tombstone :
  let s := Examples.start [] in
  let owned := constructIngress Examples.web in
  (∃ ref, GetControllerOf (om_OwnerReferences (ing_ObjectMeta owned)) = Some ref
          ∧ or_Kind ref = "Service") ∧
  deleteIngress (ObjIngress owned) s = Ok tt (added "default/web" s) ∧
  deleteIngress (ObjTombstone "default/web") s = Panic s ∧
  issued (deleteIngress (ObjTombstone "default/web")) s = [] ∧
  q_queue (st_queue (finalState (deleteIngress (ObjTombstone "default/web") s))) = [] ∧
  updateService (fun _ _ => false) (ObjService Examples.web)
                (ObjTombstone "default/web") s = Ok tt s.
Proof.
  cbn zeta. split; [eexists; split; reflexivity |].
  split; [reflexivity |]. split; [reflexivity |].
  split; [vm_compute; reflexivity |]. split; reflexivity.
Qed.

(** C10: whatever object is passed to enqueue, exactly one Add is issued, with
    the key MetaNamespaceKeyFunc returned.  When key derivation fails the
    error goes to the error sink and nothing else changes: the Add still
    happens, with the empty key. *)
Theorem enqueue_adds_once (obj : Obj) (s : State) :
  let key := fst (MetaNamespaceKeyFunc obj) in
  let err := snd (MetaNamespaceKeyFunc obj) in
  returned (enqueue obj) s = Some tt ∧
  List.filter isAdd (issued (enqueue obj) s) = [EvAdd key] ∧
  st_queue (finalState (enqueue obj s)) = workqueue.Add key (st_queue s) ∧
  (∀ e, err = Some e →
     key = "" ∧ issued (enqueue obj) s = [EvHandleError e; EvAdd ""]) ∧
  (err = None → issued (enqueue obj) s = [EvAdd key]).
Proof.
  cbn zeta. unfold enqueue.
  destruct (MetaNamespaceKeyFunc obj) as [key [e |]] eqn:Hkey; cbn [fst snd].
  - assert (key = "") as ->.
    { destruct obj; cbn in Hkey; congruence. }
    set (m := _ ;; queueAdd "").
    assert (m s = Ok tt (record [EvHandleError e; EvAdd ""]
                           {| st_queue := workqueue.Add "" (st_queue s);
                              st_log := st_log s |})) as Hrun.
    { subst m. run. finish. }
    assert (issued m s = [EvHandleError e; EvAdd ""]) as Hissued
      by exact (issued_record _ _ _ _ Hrun eq_refl).
    unfold returned. rewrite Hissued, Hrun.
    repeat split; try reflexivity; congruence.
  - set (m := _ ;; queueAdd key).
    assert (m s = Ok tt (added key s)) as Hrun by reflexivity.
    assert (issued m s = [EvAdd key]) as Hissued
      by exact (issued_record _ _ _ _ Hrun eq_refl).
    unfold returned. rewrite Hissued, Hrun.
    repeat split; try reflexivity; congruence.
Qed.

(** ** The retry policy *)

Lemma handlerError_run (key : string) (err : error) (s : State) :
  handlerError key err s =
    Ok tt {| st_queue := retryQueue key (st_queue s);
             st_log := st_log s ++ [EvNumRequeues key] ++ retryEvents key (st_queue s)
                         ++ [EvHandleError err; EvForget key] |}.
Proof.
  unfold handlerError, retryQueue, retryEvents. run.
  destruct (Nat.leb _ _); run; finish.
Qed.

Lemma NumRequeues_Forget (key : string) (q : Queue) :
  workqueue.NumRequeues key (workqueue.Forget key q) = 0.
Proof.
  unfold workqueue.NumRequeues, workqueue.Forget. cbn [q_failures].
  rewrite lookup_delete_eq. reflexivity.
Qed.



(** With the counter above maxRetry the key is not re-enqueued: only the
    error report and Forget remain. *)
Example handlerError_exhausted :
  let q := {| q_queue := []; q_dirty := ∅; q_processing := {["default/web"]};
              q_failures := {["default/web" := 11]}; q_shuttingDown := false |} in
  issued (handlerError "default/web" (ErrStore "create refused"))
         {| st_queue := q; st_log := [] |}
  = [EvNumRequeues "default/web"; EvHandleError (ErrStore "create refused");
     EvForget "default/web"].
Proof. vm_compute. reflexivity. Qed.

(** ** One item of work *)

Section ProcessNextItem.
Variable c : controller.
Variable s : State.

Lemma processNextItem_shutdown :
  workqueue.Get (st_queue s) = workqueue.GotShutDown →
  processNextItem c s = Ok false (record [EvGet] s).
Proof.
  intros Hget. unfold processNextItem, queueGet. run. rewrite Hget. reflexivity.
Qed.

Lemma processNextItem_waits :
  workqueue.Get (st_queue s) = workqueue.Waits →
  processNextItem c s = Blocked (record [EvGet] s).
Proof.
  intros Hget. unfold processNextItem, queueGet. run. rewrite Hget. reflexivity.
Qed.

Variable key : string.
Variable q' : Queue.
Hypothesis Hget : workqueue.Get (st_queue s) = workqueue.GotItem key q'.

Lemma processNextItem_item :
  processNextItem c s =
    match syncService c key (got q' s) with
    | Ok None s1 => Ok true (done key s1)
    | Ok (Some e) s1 => Ok false (done key (handled key e s1))
    | Panic s1 => Panic (done key s1)
    | Blocked s1 => Blocked s1
    end.
Proof.
  unfold processNextItem, queueGet. run. rewrite Hget.
  unfold defer. run. fold (got q' s).
  destruct (syncService c key (got q' s)) as [[e |] s1 | s1 | s1]; try reflexivity.
  rewrite handlerError_run. reflexivity.
Qed.

Lemma processNextItem_success s1 :
  syncService c key (got q' s) = Ok None s1 →
  processNextItem c s = Ok true (done key s1).
Proof. intros H. rewrite processNextItem_item, H. reflexivity. Qed.

Lemma processNextItem_failure e s1 :
  syncService c key (got q' s) = Ok (Some e) s1 →
  processNextItem c s = Ok false (done key (handled key e s1)).
Proof. intros H. rewrite processNextItem_item, H. reflexivity. Qed.

End ProcessNextItem.

(** ** A key that does not split *)

(** C5, as stated, fails: the key "a/b/c" has two separators and does not
    split; it is the pending item of the queue, and processing it issues
    AddRateLimited for it. *)
Lemma malformed_key_is_retried :
  let s := Examples.start ["a/b/c"] in
  snd (SplitMetaNamespaceKey "a/b/c") = Some (ErrKeyFormat "a/b/c") ∧
  (∃ q', workqueue.Get (st_queue s) = workqueue.GotItem "a/b/c" q') ∧
  EvAddRateLimited "a/b/c" ∈ issued (processNextItem Examples.fresh) s.
Proof.
  cbn zeta. split; [reflexivity |]. split; [eexists; reflexivity |].
  vm_compute. repeat constructor.
Qed.

(** C5 (amended): an item that fails to split makes no lister and no store
    call; processNextItem hands the split error to handlerError like any
    other failure, so the error is reported, the key is re-enqueued with
    AddRateLimited exactly when its NumRequeues is at most maxRetry, Forget
    and Done follow, and processNextItem returns false. *)
Theorem malformed_key_handled_as_failure
    (c : controller) (s : State) (key : string) (q' : Queue) (e : error) :
  snd (SplitMetaNamespaceKey key) = Some e →
  workqueue.Get (st_queue s) = workqueue.GotItem key q' →
  returned (processNextItem c) s = Some false ∧
  issued (processNextItem c) s =
    [EvGet; EvNumRequeues key] ++ retryEvents key q'
      ++ [EvHandleError e; EvForget key; EvDone key] ∧
  List.filter isListerCall (issued (processNextItem c) s) = [] ∧
  storeCalls (processNextItem c) s = [] ∧
  (EvAddRateLimited key ∈ issued (processNextItem c) s
   ↔ (workqueue.NumRequeues key q' ≤ maxRetry)%nat).
Proof.
  intros Hsplit Hget.
  destruct (SplitMetaNamespaceKey key) as [[ns name] err] eqn:Hkey.
  cbn [snd] in Hsplit. subst err.
  pose proof (processNextItem_failure c s key q' Hget e _
                (syncService_bad_key c key ns name (got q' s) e Hkey)) as Hrun.
  assert (issued (processNextItem c) s =
          [EvGet; EvNumRequeues key] ++ retryEvents key q'
            ++ [EvHandleError e; EvForget key; EvDone key]) as Hissued.
  { apply (issued_record _ _ _ _ Hrun). cbn [finalState done handled got st_log st_queue].
    rewrite <- !app_assoc. reflexivity. }
  unfold storeCalls, returned. rewrite Hissued, Hrun.
  split; [reflexivity |]. split; [reflexivity |].
  unfold retryEvents.
  destruct (Nat.leb_spec (workqueue.NumRequeues key q') maxRetry) as [Hle | Hgt];
    (split; [reflexivity |]); (split; [reflexivity |]).
  - split; [intros _; exact Hle | intros _; cbn; repeat constructor].
  - split; [| lia]. intros Hin. exfalso. cbn in Hin.
    repeat (apply elem_of_cons in Hin as [Hin | Hin]; [discriminate |]).
    by apply elem_of_nil in Hin.
Qed.

Lemma malformed_key_handled_as_failure_witness :
  snd (SplitMetaNamespaceKey "a/b/c") = Some (ErrKeyFormat "a/b/c") ∧
  returned (processNextItem Examples.fresh) (Examples.start ["a/b/c"]) = Some false ∧
  storeCalls (processNextItem Examples.fresh) (Examples.start ["a/b/c"]) = [].
Proof.
  split; [reflexivity |].
  pose proof (malformed_key_handled_as_failure Examples.fresh
                (Examples.start ["a/b/c"]) "a/b/c" _ (ErrKeyFormat "a/b/c")
                eq_refl eq_refl) as (Hr & _ & _ & Hc & _).
  split; [exact Hr | exact Hc].
Defined.

(** ** A lister that fails *)

(** The ingress lookup and the store calls are guarded: once the service
    lister has answered with a Service, or with not-found, syncService
    returns, whatever the ingress lister and the client answer. *)
Lemma syncService_returns_when_service_answered
    (c : controller) (key : string) (s : State) :
  (let '(namespace, name, _) := SplitMetaNamespaceKey key in
   notNil (fst (serviceLister c namespace name)) = true
   ∨ IsNotFound (snd (serviceLister c namespace name)) = true) →
  is_Some (returned (syncService c key) s).
Proof.
  unfold returned.
  destruct (SplitMetaNamespaceKey key) as [[ns name] [e |]] eqn:Hkey.
  { intros _. rewrite (syncService_bad_key c key ns name s e Hkey). by eexists. }
  destruct (serviceLister c ns name) as [service serr] eqn:Hs.
  destruct (IsNotFound serr) eqn:Hnf; cbn [fst snd].
  { intros _. rewrite (syncService_primary_gone c key ns name s Hkey _ _ Hs Hnf).
    by eexists. }
  intros [Hsome | Hnf']; [| congruence].
  destruct service as [svc |]; [| discriminate].
  destruct (ingressLister c ns name) as [ingress ierr] eqn:Hi.
  destruct (om_Annotations (svc_ObjectMeta svc) !! "ingress/http") as [v |] eqn:Ha.
  - destruct ierr as [e |].
    + destruct (IsNotFound (Some e)) eqn:Hnfi.
      * rewrite (syncService_create c key ns name s Hkey svc serr Hs Hnf
                   ingress (Some e)); [by eexists | by rewrite Ha | done | done].
      * rewrite (syncService_lookup_error c key ns name s Hkey svc serr Hs Hnf
                   ingress e Hi Hnfi). by eexists.
    + rewrite (syncService_converged c key ns name s Hkey svc serr Hs Hnf ingress);
        [by eexists | by rewrite Ha | done].
  - destruct ierr as [e |].
    + destruct (IsNotFound (Some e)) eqn:Hnfi.
      * destruct ingress as [ing |].
        -- rewrite (syncService_delete c key ns name s Hkey svc serr Hs Hnf
                      ing (Some e) Ha Hi (or_intror Hnfi)). by eexists.
        -- rewrite (syncService_nothing_to_delete c key ns name s Hkey svc serr
                      Hs Hnf (Some e) Ha Hi (or_intror Hnfi)). by eexists.
      * rewrite (syncService_lookup_error c key ns name s Hkey svc serr Hs Hnf
                   ingress e Hi Hnfi). by eexists.
    + destruct ingress as [ing |].
      * rewrite (syncService_delete c key ns name s Hkey svc serr Hs Hnf
                   ing None Ha Hi (or_introl eq_refl)). by eexists.
      * rewrite (syncService_nothing_to_delete c key ns name s Hkey svc serr
                   Hs Hnf None Ha Hi (or_introl eq_refl)). by eexists.
Qed.

(** C6 (the code at the failing input): the service lister answers a
    well-formed key with an error that is not not-found, and no Service.
    syncService does not return that error: it goes on to read the
    annotations of the absent Service and panics right after the lookup,
    and so does processNextItem, after its deferred Done. *)
Theorem syncService_panics_on_service_lookup_error :
  let c := Examples.brokenLister in
  let s := Examples.start ["default/web"] in
  SplitMetaNamespaceKey "default/web" = ("default", "web", None) ∧
  serviceLister c "default" "web" = (None, Some (ErrStore "index unavailable")) ∧
  syncService c "default/web" s = Panic (record [EvServiceGet "default" "web"] s) ∧
  returned (syncService c "default/web") s = None ∧
  panics (processNextItem c) s ∧
  issued (processNextItem c) s
    = [EvGet; EvServiceGet "default" "web"; EvDone "default/web"].
Proof.
  cbn zeta.
  assert (syncService Examples.brokenLister "default/web" (Examples.start ["default/web"])
          = Panic (record [EvServiceGet "default" "web"] (Examples.start ["default/web"])))
    as Hrun.
  { apply (syncService_nil_service _ "default/web" "default" "web" _ eq_refl
             (Some (ErrStore "index unavailable"))); reflexivity. }
  split; [reflexivity |]. split; [reflexivity |]. split; [exact Hrun |].
  split; [exact (proj1 (proj2 (run_panic _ _ _ Hrun))) |].
  split; vm_compute; [exact I | reflexivity].
Qed.

(** ** The worker loop *)

(** C7 (the code at the failing input): two keys are pending, the first one
    fails (its Create is refused).  Get hands the key out, it does not report
    shutdown, Done is called for the key, and yet processNextItem returns
    false: the worker loop ends after this one item, the second key has not
    been looked at and is still pending, behind the re-enqueued first key. *)
Theorem worker_stops_at_first_failure :
  let c := Examples.stuck in
  let s := Examples.start ["default/web"; "default/db"] in
  (∃ q', workqueue.Get (st_queue s) = workqueue.GotItem "default/web" q') ∧
  returned (processNextItem c) s = Some false ∧
  last (issued (processNextItem c) s) = Some (EvDone "default/web") ∧
  (∃ s', worker 3 c s = Some (Ok tt s') ∧
         s' = finalState (processNextItem c s) ∧
         q_queue (st_queue s') = ["default/db"; "default/web"] ∧
         List.filter isListerCall (st_log s')
           = [EvServiceGet "default" "web"; EvIngressGet "default" "web"]).
Proof.
  cbn zeta. split; [eexists; reflexivity |].
  split; [vm_compute; reflexivity |].
  split; [vm_compute; reflexivity |].
  eexists. split; [vm_compute; reflexivity |].
  split; vm_compute; [reflexivity |]. split; reflexivity.
Qed.

(** ** Retrying a key that always fails *)

Lemma not_elem_of_without (key : string) (X : gset string) : key ∉ X ∖ {[key]}.
Proof.
  intros [_ Hout]%elem_of_difference. apply Hout, elem_of_singleton. reflexivity.
Qed.

Lemma retry_cycle (key : string) (q : Queue) :
  retryPending key q →
  ∃ q1, workqueue.Get q = workqueue.GotItem key q1 ∧
        workqueue.NumRequeues key q1 = 0 ∧
        retryPending key (workqueue.Done key (retryQueue key q1)).
Proof.
  destruct q as [pending dirty processing failures down].
  intros (Hq & Hd & Hp & Hf & Hs). cbn in Hq, Hd, Hp, Hf, Hs. subst pending down.
  eexists. split; [reflexivity |].
  assert (default 0 (failures !! key) = 0) as Hzero by (by rewrite Hf).
  split; [exact Hzero |].
  unfold retryQueue, workqueue.NumRequeues. cbn [q_failures]. rewrite Hzero.
  cbn [Nat.leb]. unfold workqueue.AddRateLimited, workqueue.Add.
  cbn [q_shuttingDown q_dirty q_processing q_queue q_failures].
  rewrite decide_False by apply not_elem_of_without.
  rewrite decide_True by (apply elem_of_union_l, elem_of_singleton; reflexivity).
  unfold workqueue.Forget, workqueue.Done, retryPending.
  cbn [q_shuttingDown q_dirty q_processing q_queue q_failures].
  rewrite decide_True by (apply elem_of_union_l, elem_of_singleton; reflexivity).
  repeat split.
  - apply elem_of_union_l, elem_of_singleton. reflexivity.
  - apply not_elem_of_without.
  - apply lookup_delete_eq.
Qed.

Lemma retryPending_start (key : string) :
  retryPending key (workqueue.Add key emptyQueue).
Proof.
  unfold workqueue.Add, emptyQueue, retryPending.
  cbn [q_shuttingDown q_dirty q_processing q_queue q_failures].
  rewrite !decide_False by set_solver.
  cbn [q_shuttingDown q_dirty q_processing q_queue q_failures].
  repeat split; [set_solver | set_solver].
Qed.

Section AlwaysFailing.
Variable c : controller.
Variable key : string.
Variable e : error.
Variable evs : list Event.
(** Reconciling the key fails, the same way from every state. *)
Hypothesis Hfails : ∀ s, syncService c key s = Ok (Some e) (record evs s).

Lemma failed_attempt (s : State) :
  retryPending key (st_queue s) →
  ∃ s', processNextItem c s = Ok false s' ∧
        retryPending key (st_queue s') ∧
        st_log s' = st_log s ++ attemptEvents key e evs.
Proof.
  intros Hinv. destruct (retry_cycle key _ Hinv) as (q1 & Hget & Hzero & Hinv').
  eexists. split; [| split].
  - apply (processNextItem_failure c s key q1 Hget e), Hfails.
  - exact Hinv'.
  - cbn [done handled record got st_log st_queue]. unfold retryEvents.
    rewrite Hzero. cbn [Nat.leb]. unfold attemptEvents.
    rewrite <- !app_assoc. reflexivity.
Qed.

Lemma attempts_failing (n : nat) (s : State) :
  retryPending key (st_queue s) →
  retryPending key (st_queue (attempts n c s)) ∧
  st_log (attempts n c s) = st_log s ++ concat (replicate n (attemptEvents key e evs)).
Proof.
  revert s. induction n as [| n IH]; intros s Hinv.
  - split; [exact Hinv |]. cbn. by rewrite app_nil_r.
  - destruct (failed_attempt s Hinv) as (s' & Hrun & Hinv' & Hlog).
    cbn [attempts]. rewrite Hrun. cbn [finalState].
    destruct (IH s' Hinv') as (Hq & Hl). split; [exact Hq |].
    rewrite Hl, Hlog. cbn [replicate concat]. by rewrite <- app_assoc.
Qed.

End AlwaysFailing.

Lemma filter_rounds (p : Event → bool) (round : list Event) (n : nat) :
  List.length (List.filter p (concat (replicate n round)))
  = n * List.length (List.filter p round).
Proof.
  induction n as [| n IH]; [reflexivity |].
  cbn [replicate concat]. rewrite List.filter_app, length_app, IH. lia.
Qed.

(** C3 (the code at the failing input): the Service asks for an Ingress and
    every Create is refused.  However many attempts have been made, the key
    is again the pending item with its counter back at zero, every attempt
    has issued one Create and one AddRateLimited, and the next attempt issues
    both again: the attempts do not stop at maxRetry+1. *)
Theorem retries_never_stop (n : nat) :
  let c := Examples.stuck in
  let s := attempts n c (Examples.start ["default/web"]) in
  List.length (List.filter isStoreCall (st_log s)) = n ∧
  List.length (List.filter isAddRateLimited (st_log s)) = n ∧
  q_queue (st_queue s) = ["default/web"] ∧
  workqueue.NumRequeues "default/web" (st_queue s) = 0 ∧
  returned (processNextItem c) s = Some false ∧
  storeCalls (processNextItem c) s
    = [EvCreate "default" (constructIngress Examples.web)] ∧
  EvAddRateLimited "default/web" ∈ issued (processNextItem c) s.
Proof.
  cbn zeta.
  set (evs := [EvServiceGet "default" "web"; EvIngressGet "default" "web";
               EvCreate "default" (constructIngress Examples.web)]).
  assert (∀ s, syncService Examples.stuck "default/web" s
               = Ok (Some (ErrStore "create refused")) (record evs s)) as Hfails.
  { intros s.
    apply (syncService_create Examples.stuck "default/web" "default" "web" s
             eq_refl Examples.web None eq_refl eq_refl None (Some (ErrNotFound "web")));
      [| reflexivity | reflexivity].
    exists "true". vm_compute. reflexivity. }
  assert (retryPending "default/web" (st_queue (Examples.start ["default/web"]))) as Hstart.
  { apply retryPending_start. }
  destruct (attempts_failing _ _ _ _ Hfails n _ Hstart) as (Hinv & Hlog).
  destruct (failed_attempt _ _ _ _ Hfails _ Hinv) as (s' & Hrun & _ & Hlog').
  pose proof (issued_record _ _ _ _ Hrun Hlog') as Hissued.
  unfold storeCalls, returned. rewrite Hissued, Hrun, Hlog.
  cbn [Examples.start st_log app]. rewrite !filter_rounds.
  destruct Hinv as (Hq & _ & _ & Hf & _).
  repeat split.
  - cbn. lia.
  - cbn. lia.
  - exact Hq.
  - unfold workqueue.NumRequeues. by rewrite Hf.
  - unfold attemptEvents. cbn. repeat constructor.
Qed.

(** ** Reconciling twice *)




(** ** What syncService can do at all *)

Lemma record_nil (s : State) : record [] s = s.
Proof. destruct s. unfold record. cbn. by rewrite app_nil_r. Qed.

Ltac calls_ok := repeat split; [repeat constructor | cbn; lia].

(** Once the listers and the client have answered, a run of syncService has
    returned or panicked, having logged lister reads and at most one store
    call, and nothing else. *)
Lemma syncService_outcome (c : controller) (key : string) (s : State) :
  ∃ evs, reconcileCalls evs ∧
         (syncService c key s = Panic (record evs s)
          ∨ ∃ r, syncService c key s = Ok r (record evs s)).
Proof.
  destruct (SplitMetaNamespaceKey key) as [[ns name] [e |]] eqn:Hkey.
  { exists []. split; [calls_ok |]. right. exists (Some e).
    rewrite record_nil. apply (syncService_bad_key c key ns name s e Hkey). }
  destruct (serviceLister c ns name) as [service serr] eqn:Hs.
  destruct (IsNotFound serr) eqn:Hnf.
  { eexists. split; [| right; eexists;
      apply (syncService_primary_gone c key ns name s Hkey _ _ Hs Hnf)]. calls_ok. }
  destruct service as [svc |]; cycle 1.
  { eexists. split; [| left;
      apply (syncService_nil_service c key ns name s Hkey _ Hs Hnf)]. calls_ok. }
  destruct (ingressLister c ns name) as [ingress ierr] eqn:Hi.
  assert (ierr = None ∨ IsNotFound ierr = true ∨
          ∃ e, ierr = Some e ∧ IsNotFound (Some e) = false) as Hierr.
  { destruct ierr as [e |]; [| auto].
    destruct (IsNotFound (Some e)) eqn:Hnfi; [auto | right; right; eauto]. }
  destruct Hierr as [Hie | [Hie | (e & -> & Hnfi)]]; cycle 2.
  { eexists. split; [| right; eexists;
      apply (syncService_lookup_error c key ns name s Hkey svc serr Hs Hnf _ e Hi Hnfi)].
    calls_ok. }
  - subst ierr.
    destruct (om_Annotations (svc_ObjectMeta svc) !! "ingress/http") as [v |] eqn:Ha.
    + eexists. split; [| right; eexists;
        apply (syncService_converged c key ns name s Hkey svc serr Hs Hnf ingress);
        [by rewrite Ha | exact Hi]]. calls_ok.
    + destruct ingress as [ing |].
      * eexists. split; [| right; eexists;
          apply (syncService_delete c key ns name s Hkey svc serr Hs Hnf ing None Ha Hi);
          by left]. calls_ok.
      * eexists. split; [| right; eexists;
          apply (syncService_nothing_to_delete c key ns name s Hkey svc serr Hs Hnf
                   None Ha Hi); by left]. calls_ok.
  - destruct (om_Annotations (svc_ObjectMeta svc) !! "ingress/http") as [v |] eqn:Ha.
    + eexists. split; [| right; eexists;
        apply (syncService_create c key ns name s Hkey svc serr Hs Hnf ingress ierr);
        [by rewrite Ha | exact Hi | exact Hie]]. calls_ok.
    + destruct ingress as [ing |].
      * eexists. split; [| right; eexists;
          apply (syncService_delete c key ns name s Hkey svc serr Hs Hnf ing ierr Ha Hi);
          by right]. calls_ok.
      * eexists. split; [| right; eexists;
          apply (syncService_nothing_to_delete c key ns name s Hkey svc serr Hs Hnf
                   ierr Ha Hi); by right]. calls_ok.
Qed.

(** X6: whatever the listers and the client answer, one run of syncService
    leaves the work queue as it found it, issues at most one store call, and
    makes no call other than lister reads and that store call: it never
    touches the queue or the error sink.  This holds of the run that panics
    as well. *)
Theorem syncService_footprint (c : controller) (key : string) (s : State) :
  st_queue (finalState (syncService c key s)) = st_queue s ∧
  (List.length (storeCalls (syncService c key) s) ≤ 1)%nat ∧
  Forall (fun e => isListerCall e || isStoreCall e = true)
         (issued (syncService c key) s).
Proof.
  destruct (syncService_outcome c key s) as (evs & (Hall & Hone & _) & Hrun).
  assert (issued (syncService c key) s = evs) as Hissued.
  { destruct Hrun as [Hrun | (r & Hrun)]; exact (issued_record _ _ _ _ Hrun eq_refl). }
  unfold storeCalls. rewrite Hissued.
  split; [| split; [exact Hone | exact Hall]].
  destruct Hrun as [-> | (r & ->)]; reflexivity.
Qed.

(** X7: once the service lister has answered a key that splits with a
    Service, or with not-found, syncService returns a value and does not
    panic, whatever the ingress lister and the client then answer. *)
Theorem syncService_safe_when_service_answered
    (c : controller) (key namespace name : string) (s : State) :
  SplitMetaNamespaceKey key = (namespace, name, None) →
  notNil (fst (serviceLister c namespace name)) = true
  ∨ IsNotFound (snd (serviceLister c namespace name)) = true →
  is_Some (returned (syncService c key) s) ∧ ¬ panics (syncService c key) s.
Proof.
  intros Hkey Hanswered.
  assert (is_Some (returned (syncService c key) s)) as Hret.
  { apply syncService_returns_when_service_answered. by rewrite Hkey. }
  split; [exact Hret |].
  unfold panics. unfold returned in Hret.
  destruct (syncService c key s); [tauto | | tauto].
  destruct Hret as [? ?]. discriminate.
Qed.

Lemma syncService_safe_when_service_answered_witness :
  SplitMetaNamespaceKey "default/web" = ("default", "web", None) ∧
  is_Some (returned (syncService Examples.stuck "default/web")
                    (Examples.start ["default/web"])).
Proof.
  split; [reflexivity |].
  apply (syncService_safe_when_service_answered Examples.stuck "default/web"
           "default" "web" (Examples.start ["default/web"]) eq_refl).
  left. reflexivity.
Defined.

(** X8: for a Service that is present, an error of the ingress lookup other
    than not-found ends the attempt: syncService returns that very error and
    issues no store call, whether the Service asks for an Ingress or not. *)
Theorem syncService_ingress_lookup_error
    (c : controller) (key namespace name : string) (s : State)
    (svc : Service) (ingress : option Ingress) (e : error) :
  SplitMetaNamespaceKey key = (namespace, name, None) →
  serviceLister c namespace name = (Some svc, None) →
  ingressLister c namespace name = (ingress, Some e) →
  IsNotFound (Some e) = false →
  returned (syncService c key) s = Some (Some e) ∧
  storeCalls (syncService c key) s = [].
Proof.
  intros Hkey Hs Hi Hnf.
  destruct (run_ok _ _ _ _
    (syncService_lookup_error c key namespace name s Hkey svc None Hs eq_refl
       ingress e Hi Hnf)) as (Hr & _ & Hc).
  split; [exact Hr | exact Hc].
Qed.

Lemma syncService_ingress_lookup_error_witness :
  let c := {| client := Examples.goodClient;
              ingressLister := fun _ _ => (None, Some (ErrStore "index unavailable"));
              serviceLister := Examples.services |} in
  SplitMetaNamespaceKey "default/web" = ("default", "web", None) ∧
  returned (syncService c "default/web") (Examples.start ["default/web"])
    = Some (Some (ErrStore "index unavailable")) ∧
  storeCalls (syncService c "default/web") (Examples.start ["default/web"]) = [].
Proof.
  cbn zeta. split; [reflexivity |].
  apply (syncService_ingress_lookup_error _ "default/web" "default" "web" _
           Examples.web None (ErrStore "index unavailable"));
    reflexivity.
Defined.

(** ** The handlers *)

Lemma issued_nothing {A} (m : M A) (s : State) (r : Res A) :
  m s = r → finalState r = s → issued m s = [].
Proof.
  intros Hrun Hs. apply (issued_record m s r [] Hrun). rewrite Hs. by rewrite app_nil_r.
Qed.

Lemma enqueue_run (obj : Obj) (s : State) :
  enqueue obj s =
    Ok tt {| st_queue := workqueue.Add (fst (MetaNamespaceKeyFunc obj)) (st_queue s);
             st_log := st_log s
               ++ match snd (MetaNamespaceKeyFunc obj) with
                  | Some e => [EvHandleError e; EvAdd (fst (MetaNamespaceKeyFunc obj))]
                  | None => [EvAdd (fst (MetaNamespaceKeyFunc obj))]
                  end |}.
Proof.
  unfold enqueue. destruct (MetaNamespaceKeyFunc obj) as [key [e |]]; run; [finish | reflexivity].
Qed.

Lemma enqueue_service (svc : Service) (s : State) :
  enqueue (ObjService svc) s
  = Ok tt (added (fst (MetaNamespaceKeyFunc (ObjService svc))) s).
Proof. rewrite enqueue_run. reflexivity. Qed.

(** X1: an update notification enqueues nothing, and leaves queue and log
    untouched, when the new object is not a Service or when DeepEqual finds
    old and new alike; for a changed Service it makes one call, Add of the
    new object's key. *)
Theorem updateService_filter
    (DeepEqual : Obj → Obj → bool) (oldObj newObj : Obj) (s : State) :
  ((∀ svc, newObj ≠ ObjService svc) →
     updateService DeepEqual oldObj newObj s = Ok tt s) ∧
  (DeepEqual oldObj newObj = true →
     updateService DeepEqual oldObj newObj s = Ok tt s) ∧
  (∀ svc, newObj = ObjService svc → DeepEqual oldObj newObj = false →
     updateService DeepEqual oldObj newObj s
       = Ok tt (added (fst (MetaNamespaceKeyFunc newObj)) s) ∧
     issued (updateService DeepEqual oldObj newObj) s
       = [EvAdd (fst (MetaNamespaceKeyFunc newObj))]).
Proof.
  split; [| split].
  - intros Hother. destruct newObj as [svc | | |]; try reflexivity.
    by destruct (Hother svc).
  - intros Heq. unfold updateService. rewrite Heq. by destruct newObj.
  - intros svc -> Hne.
    assert (updateService DeepEqual oldObj (ObjService svc) s
            = Ok tt (added (fst (MetaNamespaceKeyFunc (ObjService svc))) s)) as Hrun.
    { unfold updateService. rewrite Hne. apply enqueue_service. }
    split; [exact Hrun | exact (issued_record _ _ _ _ Hrun eq_refl)].
Qed.

Lemma updateService_filter_witness :
  issued (updateService (fun _ _ => false) (ObjService Examples.web) (ObjService Examples.db))
         (idle [])
  = [EvAdd "default/db"].
Proof.
  apply (proj2 (proj2 (updateService_filter (fun _ _ => false)
                         (ObjService Examples.web) (ObjService Examples.db) (idle [])))
           Examples.db eq_refl eq_refl).
Defined.

(** X2: the delete handler asserts that its object is an Ingress without
    checking: handed anything else (the tombstone an informer sends for a
    missed deletion, say) it panics, having enqueued and logged nothing. *)
Theorem deleteIngress_rejects_other_objects (obj : Obj) (s : State) :
  (∀ ingress, obj ≠ ObjIngress ingress) →
  deleteIngress obj s = Panic s ∧ issued (deleteIngress obj) s = [].
Proof.
  intros Hother.
  assert (deleteIngress obj s = Panic s) as Hrun.
  { destruct obj as [| ingress | |]; try reflexivity. by destruct (Hother ingress). }
  split; [exact Hrun | exact (issued_nothing _ _ _ Hrun eq_refl)].
Qed.

Lemma deleteIngress_rejects_other_objects_witness :
  deleteIngress (ObjTombstone "default/web") (idle []) = Panic (idle []).
Proof.
  apply (deleteIngress_rejects_other_objects (ObjTombstone "default/web") (idle [])).
  intros ingress. discriminate.
Defined.

Lemma handler_quiet {A} (m : M A) (s : State) (r : Res A) :
  m s = r → finalState r = s →
  Forall (fun e => isHandlerCall e = true) (issued m s) ∧
  (List.length (List.filter isAdd (issued m s)) ≤ 1)%nat.
Proof.
  intros Hrun Hs. rewrite (issued_nothing m s r Hrun Hs). split; [constructor | cbn; lia].
Qed.

Lemma enqueue_calls (obj : Obj) (s : State) :
  Forall (fun e => isHandlerCall e = true) (issued (enqueue obj) s) ∧
  (List.length (List.filter isAdd (issued (enqueue obj) s)) ≤ 1)%nat.
Proof.
  rewrite (issued_record _ _ _ _ (enqueue_run obj s) eq_refl).
  destruct (snd (MetaNamespaceKeyFunc obj)); split; repeat constructor.
Qed.

(** X3: the handlers registered by NewController only ever talk to the queue
    and to the error sink: whatever the notification, no lister is read and
    no store call is made, and at most one Add is issued.  Notifications
    without a registered function (a deleted Service, an added or updated
    Ingress) change nothing. *)
Theorem handlers_only_enqueue
    (DeepEqual : Obj → Obj → bool) (informer : Informer) (n : Notification) (s : State) :
  Forall (fun e => isHandlerCall e = true)
         (issued (NewController DeepEqual informer n) s) ∧
  (List.length (List.filter isAdd (issued (NewController DeepEqual informer n) s)) ≤ 1)%nat ∧
  (∀ obj, NewController DeepEqual ServiceInformer (OnDelete obj) s = Ok tt s) ∧
  (∀ obj, NewController DeepEqual IngressInformer (OnAdd obj) s = Ok tt s) ∧
  (∀ oldObj newObj,
     NewController DeepEqual IngressInformer (OnUpdate oldObj newObj) s = Ok tt s).
Proof.
  assert (Forall (fun e => isHandlerCall e = true)
                 (issued (NewController DeepEqual informer n) s) ∧
          (List.length (List.filter isAdd
             (issued (NewController DeepEqual informer n) s)) ≤ 1)%nat) as [Hall Hone].
  { destruct informer, n as [obj | oldObj newObj | obj]; cbn [NewController].
    - apply enqueue_calls.
    - unfold updateService.
      destruct newObj as [svc | | |]; try (by eapply handler_quiet).
      destruct (DeepEqual oldObj (ObjService svc)); [by eapply handler_quiet |].
      apply enqueue_calls.
    - by eapply handler_quiet.
    - by eapply handler_quiet.
    - by eapply handler_quiet.
    - destruct obj as [| ingress | |]; try (by eapply handler_quiet).
      pose proof (deleteIngress_run ingress s) as Hrun.
      destruct (GetControllerOf _) as [ref |]; [| by eapply handler_quiet].
      destruct (String.eqb _ _); [| by eapply handler_quiet].
      rewrite queueAdd_run in Hrun.
      rewrite (issued_record _ _ _ _ Hrun eq_refl). split; repeat constructor. }
  repeat split; assumption.
Qed.

(** ** Keys *)

Lemma noSlash_cons (c : ascii) (rest : string) :
  noSlash (String c rest) = true → Ascii.eqb c "/"%char = false ∧ noSlash rest = true.
Proof.
  cbn [noSlash]. intros [Hc Hrest]%andb_true_iff.
  split; [by apply negb_true_iff | exact Hrest].
Qed.

Lemma splitSlash_noSlash (s : string) : noSlash s = true → splitSlash s = [s].
Proof.
  induction s as [| c rest IH]; [reflexivity |].
  intros [Hc Hrest]%noSlash_cons. cbn [splitSlash]. rewrite Hc, (IH Hrest). reflexivity.
Qed.

Lemma splitSlash_join (a b : string) :
  noSlash a = true → noSlash b = true → splitSlash (a +:+ "/" +:+ b) = [a; b].
Proof.
  intros Ha Hb. induction a as [| c rest IH].
  - change (EmptyString +:+ "/" +:+ b) with (String "/"%char b).
    cbn [splitSlash]. by rewrite Ascii.eqb_refl, (splitSlash_noSlash b Hb).
  - apply noSlash_cons in Ha as [Hc Hrest].
    change (String c rest +:+ "/" +:+ b) with (String c (rest +:+ "/" +:+ b)).
    cbn [splitSlash]. rewrite Hc, (IH Hrest). reflexivity.
Qed.

Lemma split_joined_key (namespace name : string) :
  noSlash namespace = true → noSlash name = true →
  SplitMetaNamespaceKey (namespace +:+ "/" +:+ name) = (namespace, name, None).
Proof.
  intros Hns Hname. unfold SplitMetaNamespaceKey.
  by rewrite (splitSlash_join _ _ Hns Hname).
Qed.

Lemma split_object_key (m : ObjectMeta) (obj : Obj) :
  obj = ObjService {| svc_ObjectMeta := m |} ∨ (∃ spec, obj = ObjIngress (mkIngress m spec)) →
  noSlash (om_Namespace m) = true → noSlash (om_Name m) = true →
  SplitMetaNamespaceKey (fst (MetaNamespaceKeyFunc obj))
  = (om_Namespace m, om_Name m, None).
Proof.
  intros Hobj Hns Hname.
  assert (fst (MetaNamespaceKeyFunc obj)
          = if Nat.ltb 0 (String.length (om_Namespace m))
            then om_Namespace m +:+ "/" +:+ om_Name m else om_Name m) as ->.
  { destruct Hobj as [-> | (spec & ->)]; reflexivity. }
  destruct (om_Namespace m) as [| c rest] eqn:Hnamespace.
  - cbn. unfold SplitMetaNamespaceKey. by rewrite (splitSlash_noSlash _ Hname).
  - cbn [String.length Nat.ltb Nat.leb]. by apply split_joined_key.
Qed.

(** X4: a key made by the controller finds its way back: when namespace and
    name contain no separator, the key deleteIngress builds from them, and
    the key under which enqueue files a Service or an Ingress carrying them
    (the bare name when the namespace is empty), split into exactly that
    namespace and name, without error. *)
Theorem enqueued_key_splits_back (m : ObjectMeta) (spec : IngressSpec) :
  noSlash (om_Namespace m) = true → noSlash (om_Name m) = true →
  SplitMetaNamespaceKey (om_Namespace m +:+ "/" +:+ om_Name m)
    = (om_Namespace m, om_Name m, None) ∧
  SplitMetaNamespaceKey (fst (MetaNamespaceKeyFunc (ObjService (mkService m))))
    = (om_Namespace m, om_Name m, None) ∧
  SplitMetaNamespaceKey (fst (MetaNamespaceKeyFunc (ObjIngress (mkIngress m spec))))
    = (om_Namespace m, om_Name m, None).
Proof.
  intros Hns Hname. split; [by apply split_joined_key |].
  split; apply split_object_key; eauto.
Qed.

Lemma enqueued_key_splits_back_witness :
  SplitMetaNamespaceKey
    (fst (MetaNamespaceKeyFunc (ObjService (mkService (Examples.meta "" "web" ∅ [])))))
  = ("", "web", None).
Proof.
  apply (enqueued_key_splits_back (Examples.meta "" "web" ∅ [])
           (mkIngressSpec []) eq_refl eq_refl).
Defined.

(** X5: an Ingress built by constructIngress passes the ownership filter of
    the delete handler: for every Service, deleting its constructed Ingress
    makes one call, Add of the Service's namespace + "/" + name. *)
Theorem constructed_ingress_is_owned (service : Service) (s : State) :
  deleteIngress (ObjIngress (constructIngress service)) s
  = Ok tt (added (om_Namespace (svc_ObjectMeta service) +:+ "/"
                  +:+ om_Name (svc_ObjectMeta service)) s).
Proof. rewrite deleteIngress_run. reflexivity. Qed.

(** ** The queue around one item *)

Lemma Get_item (q : Queue) (key : string) (q' : Queue) :
  workqueue.Get q = workqueue.GotItem key q' →
  q_queue q = key :: q_queue q' ∧
  q' = {| q_queue := q_queue q'; q_dirty := q_dirty q ∖ {[key]};
          q_processing := {[key]} ∪ q_processing q;
          q_failures := q_failures q; q_shuttingDown := false |}.
Proof.
  unfold workqueue.Get. destruct (q_shuttingDown q) eqn:Hdown; [discriminate |].
  destruct (q_queue q) as [| item rest]; [discriminate |].
  intros [= -> <-]. cbn [q_queue]. done.
Qed.

Lemma Done_after_success (q : Queue) (key : string) (q' : Queue) :
  workqueue.Get q = workqueue.GotItem key q' →
  q_queue (workqueue.Done key q') = q_queue q'.
Proof.
  intros [_ ->]%Get_item. cbn [workqueue.Done q_queue q_dirty].
  by rewrite decide_False by apply not_elem_of_without.
Qed.

Lemma Done_after_retry (q : Queue) (key : string) (q' : Queue) :
  workqueue.Get q = workqueue.GotItem key q' →
  q_queue (workqueue.Done key (retryQueue key q'))
  = if Nat.leb (workqueue.NumRequeues key q') maxRetry
    then q_queue q' ++ [key] else q_queue q'.
Proof.
  intros [_ Hq']%Get_item. unfold retryQueue.
  destruct (Nat.leb (workqueue.NumRequeues key q') maxRetry).
  - rewrite Hq'. unfold workqueue.AddRateLimited, workqueue.Add.
    cbn [q_shuttingDown q_dirty q_processing q_queue q_failures].
    rewrite decide_False by apply not_elem_of_without.
    rewrite decide_True by (apply elem_of_union_l, elem_of_singleton; reflexivity).
    cbn [workqueue.Forget workqueue.Done q_queue q_dirty].
    by rewrite decide_True by (apply elem_of_union_l, elem_of_singleton; reflexivity).
  - rewrite Hq'. cbn [workqueue.Forget workqueue.Done q_queue q_dirty].
    by rewrite decide_False by apply not_elem_of_without.
Qed.

Lemma Done_not_processing (key : string) (q : Queue) :
  key ∉ q_processing (workqueue.Done key q).
Proof. cbn [workqueue.Done q_processing]. apply not_elem_of_without. Qed.

Lemma Done_counters (key k : string) (q : Queue) :
  workqueue.NumRequeues k (workqueue.Done key q) = workqueue.NumRequeues k q.
Proof. reflexivity. Qed.

(** The three ways processNextItem ends once Get has handed out a key. *)
Lemma processNextItem_cases (c : controller) (s : State) (key : string) (q' : Queue) :
  workqueue.Get (st_queue s) = workqueue.GotItem key q' →
  ∃ evs, reconcileCalls evs ∧
    ((syncService c key (got q' s) = Panic (record evs (got q' s)) ∧
      processNextItem c s = Panic (done key (record evs (got q' s))))
     ∨ (syncService c key (got q' s) = Ok None (record evs (got q' s)) ∧
        processNextItem c s = Ok true (done key (record evs (got q' s))))
     ∨ (∃ e, syncService c key (got q' s) = Ok (Some e) (record evs (got q' s)) ∧
             processNextItem c s
             = Ok false (done key (handled key e (record evs (got q' s)))))).
Proof.
  intros Hget. rewrite (processNextItem_item c s key q' Hget).
  destruct (syncService_outcome c key (got q' s)) as (evs & Hcalls & [Hrun | ([e |] & Hrun)]);
    exists evs; (split; [exact Hcalls |]); rewrite Hrun; eauto.
Qed.

(** X9: whenever Get hands out a key, processNextItem calls Done for that key
    exactly once, as its last call, on every way out: success, failure, and
    panic of syncService alike.  The key is then no longer in flight. *)
Theorem processNextItem_always_done
    (c : controller) (s : State) (key : string) (q' : Queue) :
  workqueue.Get (st_queue s) = workqueue.GotItem key q' →
  last (issued (processNextItem c) s) = Some (EvDone key) ∧
  List.filter isDone (issued (processNextItem c) s) = [EvDone key] ∧
  key ∉ q_processing (st_queue (finalState (processNextItem c s))).
Proof.
  intros Hget.
  destruct (processNextItem_cases c s key q' Hget)
    as (evs & (_ & _ & Hnodone) & [[_ Hrun] | [[_ Hrun] | (e & _ & Hrun)]]).
  - assert (issued (processNextItem c) s = ([EvGet] ++ evs) ++ [EvDone key]) as ->.
    { apply (issued_record _ _ _ _ Hrun). cbn. by rewrite <- !app_assoc. }
    rewrite Hrun. split; [apply last_snoc |]. split; [| apply Done_not_processing].
    rewrite !List.filter_app, Hnodone. reflexivity.
  - assert (issued (processNextItem c) s = ([EvGet] ++ evs) ++ [EvDone key]) as ->.
    { apply (issued_record _ _ _ _ Hrun). cbn. by rewrite <- !app_assoc. }
    rewrite Hrun. split; [apply last_snoc |]. split; [| apply Done_not_processing].
    rewrite !List.filter_app, Hnodone. reflexivity.
  - assert (issued (processNextItem c) s
            = ([EvGet] ++ evs ++ [EvNumRequeues key] ++ retryEvents key q'
               ++ [EvHandleError e; EvForget key]) ++ [EvDone key]) as ->.
    { apply (issued_record _ _ _ _ Hrun). cbn. by rewrite <- !app_assoc. }
    rewrite Hrun. split; [apply last_snoc |]. split; [| apply Done_not_processing].
    rewrite !List.filter_app, Hnodone. unfold retryEvents.
    by destruct (Nat.leb _ _).
Qed.

Lemma processNextItem_always_done_witness :
  last (issued (processNextItem Examples.brokenLister) (Examples.start ["default/web"]))
  = Some (EvDone "default/web").
Proof.
  apply (processNextItem_always_done Examples.brokenLister
           (Examples.start ["default/web"]) "default/web" _ eq_refl).
Defined.

(** X10: when reconciling the key handed out by Get fails, the keys that
    were waiting stay pending, in their order and ahead of the failed key
    should it be pending again; no other key becomes pending.  A retry is
    scheduled with AddRateLimited exactly when the key's requeue counter was
    at most maxRetry; above maxRetry the pending list is exactly the keys
    that were waiting.  The counter of the failed key is zero afterwards. *)
Theorem failed_item_keeps_the_waiting_keys
    (c : controller) (s : State) (key : string) (q' : Queue) (e : error) :
  workqueue.Get (st_queue s) = workqueue.GotItem key q' →
  returned (syncService c key) (got q' s) = Some (Some e) →
  let after := st_queue (finalState (processNextItem c s)) in
  (∃ back, q_queue after = q_queue q' ++ back ∧ (back = [] ∨ back = [key])) ∧
  (EvAddRateLimited key ∈ issued (processNextItem c) s
   ↔ (workqueue.NumRequeues key q' ≤ maxRetry)%nat) ∧
  ((maxRetry < workqueue.NumRequeues key q')%nat → q_queue after = q_queue q') ∧
  workqueue.NumRequeues key after = 0.
Proof.
  intros Hget Hfail after.
  destruct (processNextItem_cases c s key q' Hget)
    as (evs & (Hall & _ & _) & [[Hsync _] | [[Hsync _] | (e' & Hsync & Hrun)]]);
    unfold returned in Hfail; rewrite Hsync in Hfail; try discriminate.
  assert (issued (processNextItem c) s
          = ([EvGet] ++ evs ++ [EvNumRequeues key] ++ retryEvents key q'
               ++ [EvHandleError e'; EvForget key]) ++ [EvDone key]) as Hissued.
  { apply (issued_record _ _ _ _ Hrun). cbn. by rewrite <- !app_assoc. }
  assert (EvAddRateLimited key ∉ evs) as Hevs.
  { intros Hin. by apply (proj1 (Forall_forall _ _) Hall) in Hin. }
  subst after. rewrite Hissued, Hrun. cbn [finalState done handled record got st_queue].
  rewrite (Done_after_retry _ _ _ Hget), Done_counters. unfold retryEvents.
  destruct (Nat.leb_spec (workqueue.NumRequeues key q') maxRetry) as [Hle | Hgt].
  - split; [exists [key]; auto |]. split; [| split; [lia |]].
    + split; [intros _; exact Hle | intros _].
      apply elem_of_app. left. apply elem_of_app. right. apply elem_of_app. right.
      cbn. repeat constructor.
    + unfold retryQueue. apply NumRequeues_Forget.
  - split; [exists []; split; [by rewrite app_nil_r | auto] |].
    split; [| split; [reflexivity |]].
    + split; [| lia]. intros Hin. exfalso.
      apply elem_of_app in Hin as [Hin | Hin]; cycle 1.
      { apply list_elem_of_singleton in Hin. discriminate. }
      apply elem_of_app in Hin as [Hin | Hin].
      { apply list_elem_of_singleton in Hin. discriminate. }
      apply elem_of_app in Hin as [Hin | Hin]; [by apply Hevs |].
      cbn in Hin.
      repeat (apply elem_of_cons in Hin as [Hin | Hin]; [discriminate |]).
      by apply elem_of_nil in Hin.
    + unfold retryQueue. apply NumRequeues_Forget.
Qed.

Lemma failed_item_keeps_the_waiting_keys_witness :
  EvAddRateLimited "default/web"
    ∈ issued (processNextItem Examples.stuck)
             (Examples.start ["default/web"; "default/db"]) ∧
  workqueue.NumRequeues "default/web"
    (st_queue (finalState (processNextItem Examples.stuck
                             (Examples.start ["default/web"; "default/db"])))) = 0.
Proof.
  pose proof (failed_item_keeps_the_waiting_keys Examples.stuck
                (Examples.start ["default/web"; "default/db"]) "default/web" _
                (ErrStore "create refused") eq_refl eq_refl)
    as (_ & Hretry & _ & Hzero).
  split; [| exact Hzero].
  apply (proj2 Hretry). vm_compute. lia.
Defined.

(** ** The worker loop, in general *)

Lemma processNextItem_true_pops (c : controller) (s s' : State) :
  processNextItem c s = Ok true s' →
  ∃ key, q_queue (st_queue s) = key :: q_queue (st_queue s').
Proof.
  destruct (workqueue.Get (st_queue s)) as [key q' | |] eqn:Hget.
  - destruct (processNextItem_cases c s key q' Hget)
      as (evs & _ & [[_ Hrun] | [[_ Hrun] | (e & _ & Hrun)]]);
      rewrite Hrun; intros [= <-].
    exists key. cbn [done record got st_queue].
    rewrite (Done_after_success _ _ _ Hget). by apply Get_item.
  - by rewrite (processNextItem_shutdown c s Hget).
  - by rewrite (processNextItem_waits c s Hget).
Qed.

Lemma worker_enough_fuel (c : controller) (fuel : nat) (s : State) :
  (List.length (q_queue (st_queue s)) < fuel)%nat → is_Some (worker fuel c s).
Proof.
  revert s. induction fuel as [| fuel IH]; intros s Hlen; [lia |].
  cbn [worker]. destruct (processNextItem c s) as [[|] s' | s' | s'] eqn:Hrun;
    try (by eexists).
  apply IH. destruct (processNextItem_true_pops c s s' Hrun) as (key & Hq).
  rewrite Hq in Hlen. cbn [List.length] in Hlen. lia.
Qed.

(** X11: the worker loop always comes to an end: with one round more than
    there are pending keys it has returned, panicked or come to wait in Get,
    because a round that returns true has taken a key off the pending list
    and put none back. *)
Theorem worker_terminates (c : controller) (s : State) :
  is_Some (worker (S (List.length (q_queue (st_queue s)))) c s).
Proof. apply worker_enough_fuel. lia. Qed.

Lemma worker_drains (c : controller) (pending : list string) :
  (∀ key, key ∈ pending → ∀ s, returned (syncService c key) s = Some None) →
  ∀ s, q_queue (st_queue s) = pending → q_shuttingDown (st_queue s) = false →
  ∃ s', worker (S (List.length pending)) c s = Some (Blocked s') ∧
        q_queue (st_queue s') = [] ∧
        List.filter isDone (st_log s')
        = List.filter isDone (st_log s) ++ List.map EvDone pending.
Proof.
  induction pending as [| key rest IH]; intros Hok s Hq Hdown.
  - assert (workqueue.Get (st_queue s) = workqueue.Waits) as Hget.
    { unfold workqueue.Get. by rewrite Hdown, Hq. }
    exists (record [EvGet] s). cbn [worker List.length].
    rewrite (processNextItem_waits c s Hget). split; [reflexivity |].
    split; [exact Hq |]. cbn [record st_log]. by rewrite List.filter_app.
  - assert (∃ q', workqueue.Get (st_queue s) = workqueue.GotItem key q') as (q' & Hget).
    { unfold workqueue.Get. rewrite Hdown, Hq. by eexists. }
    destruct (Get_item _ _ _ Hget) as [Hpop Hq'].
    rewrite Hq in Hpop. injection Hpop as Hrest.
    destruct (processNextItem_cases c s key q' Hget)
      as (evs & (_ & _ & Hnodone) & [[Hsync _] | [[_ Hrun] | (e & Hsync & _)]]).
    { pose proof (Hok key (list_elem_of_here _ _) (got q' s)) as Hret.
      unfold returned in Hret. by rewrite Hsync in Hret. }
    2: { pose proof (Hok key (list_elem_of_here _ _) (got q' s)) as Hret.
         unfold returned in Hret. by rewrite Hsync in Hret. }
    set (s1 := done key (record evs (got q' s))) in *.
    destruct (IH (fun k Hk => Hok k (list_elem_of_further _ _ _ Hk)) s1)
      as (s' & Hworker & Hempty & Hlog).
    { subst s1. cbn [done record got st_queue].
      rewrite (Done_after_success _ _ _ Hget). by symmetry. }
    { subst s1. cbn [done record got st_queue workqueue.Done q_shuttingDown].
      by rewrite Hq'. }
    exists s'. split; [| split; [exact Hempty |]].
    + change (worker (S (List.length (key :: rest))) c s)
        with (match processNextItem c s with
              | Ok true s2 => worker (S (List.length rest)) c s2
              | Ok false s2 => Some (Ok tt s2)
              | Panic s2 => Some (Panic s2)
              | Blocked s2 => Some (Blocked s2)
              end).
      rewrite Hrun. exact Hworker.
    + rewrite Hlog. subst s1. cbn [done record got st_log].
      rewrite !List.filter_app, Hnodone. cbn. by rewrite <- !app_assoc.
Qed.

(** X12: when the queue is not shut down and every pending key reconciles
    without error, the worker loop works the pending list off in order, one
    Done per key, and ends waiting in Get on an empty list. *)
Theorem worker_drains_in_order (c : controller) (s : State) :
  q_shuttingDown (st_queue s) = false →
  (∀ key, key ∈ q_queue (st_queue s) →
          ∀ s0, returned (syncService c key) s0 = Some None) →
  ∃ s', worker (S (List.length (q_queue (st_queue s)))) c s = Some (Blocked s') ∧
        q_queue (st_queue s') = [] ∧
        List.filter isDone (st_log s')
        = List.filter isDone (st_log s) ++ List.map EvDone (q_queue (st_queue s)).
Proof.
  intros Hdown Hok. by apply worker_drains.
Qed.

Lemma worker_drains_in_order_witness :
  ∃ s', worker 3 Examples.populated (Examples.start ["default/web"; "default/db"])
        = Some (Blocked s') ∧
        q_queue (st_queue s') = [] ∧
        List.filter isDone (st_log s') = [EvDone "default/web"; EvDone "default/db"].
Proof.
  apply (worker_drains_in_order Examples.populated
           (Examples.start ["default/web"; "default/db"]) eq_refl).
  intros key Hkey s0.
  apply elem_of_cons in Hkey as [-> | Hkey]; [reflexivity |].
  apply elem_of_cons in Hkey as [-> | Hkey]; [reflexivity |].
  by apply elem_of_nil in Hkey.
Defined.

(** ** From a notification to the store *)

Lemma reconcile_sole_key (c : controller) (key : string) (log evs : list Event) :
  (∀ s, syncService c key s = Ok None (record evs s)) →
  returned (processNextItem c) (added key (idle log)) = Some true ∧
  storeCalls (processNextItem c) (added key (idle log)) = List.filter isStoreCall evs ∧
  q_queue (st_queue (finalState (processNextItem c (added key (idle log))))) = [].
Proof.
  intros Hsync. set (s1 := added key (idle log)).
  destruct (retryPending_start key) as (Hq & _ & _ & _ & Hdown).
  assert (∃ q', workqueue.Get (st_queue s1) = workqueue.GotItem key q') as (q' & Hget).
  { subst s1. cbn [added idle st_queue]. unfold workqueue.Get. rewrite Hdown, Hq.
    by eexists. }
  destruct (Get_item _ _ _ Hget) as [Hpop _].
  assert (q_queue q' = []) as Hrest.
  { subst s1. cbn [added idle st_queue] in Hpop. rewrite Hq in Hpop. by injection Hpop. }
  pose proof (processNextItem_success c s1 key q' Hget _ (Hsync (got q' s1))) as Hrun.
  assert (issued (processNextItem c) s1 = ([EvGet] ++ evs) ++ [EvDone key]) as Hissued.
  { apply (issued_record _ _ _ _ Hrun). cbn. by rewrite <- !app_assoc. }
  unfold storeCalls, returned. rewrite Hissued, Hrun. split; [reflexivity |]. split.
  - rewrite !List.filter_app. cbn. by rewrite app_nil_r.
  - cbn [finalState done record got st_queue].
    by rewrite (Done_after_success _ _ _ Hget).
Qed.

(** X13: an added Service that carries the annotation and has no Ingress
    yet: the add notification followed by one round of a worker, on a queue
    that was empty, issues exactly one store call, the Create of the Ingress
    constructed for that Service, in the Service's namespace; the round
    returns true and leaves nothing pending.  Namespace and name are free of
    the separator and the store accepts the Create. *)
Theorem add_event_creates_ingress
    (c : controller) (svc : Service) (what : string) (log : list Event) :
  let namespace := om_Namespace (svc_ObjectMeta svc) in
  let name := om_Name (svc_ObjectMeta svc) in
  noSlash namespace = true → noSlash name = true →
  serviceLister c namespace name = (Some svc, None) →
  is_Some (om_Annotations (svc_ObjectMeta svc) !! "ingress/http") →
  ingressLister c namespace name = (None, Some (ErrNotFound what)) →
  snd (Create (client c) namespace (constructIngress svc)) = None →
  let s1 := finalState (addService (ObjService svc) (idle log)) in
  returned (processNextItem c) s1 = Some true ∧
  storeCalls (processNextItem c) s1 = [EvCreate namespace (constructIngress svc)] ∧
  q_queue (st_queue (finalState (processNextItem c s1))) = [].
Proof.
  intros namespace name Hns Hname Hs Ha Hi Hcreate s1.
  subst s1. unfold addService. rewrite enqueue_service. cbn [finalState].
  assert (SplitMetaNamespaceKey (fst (MetaNamespaceKeyFunc (ObjService svc)))
          = (namespace, name, None)) as Hkey.
  { apply (split_object_key (svc_ObjectMeta svc)); [left; by destruct svc | done | done]. }
  apply (reconcile_sole_key c _ log
           ([EvServiceGet namespace name; EvIngressGet namespace name]
              ++ [EvCreate namespace (constructIngress svc)])).
  intros s. rewrite <- Hcreate.
  by apply (syncService_create c _ namespace name s Hkey svc None Hs eq_refl
              None (Some (ErrNotFound what))).
Qed.

Lemma add_event_creates_ingress_witness :
  storeCalls (processNextItem Examples.fresh)
             (finalState (addService (ObjService Examples.web) (idle [])))
  = [EvCreate "default" (constructIngress Examples.web)].
Proof.
  apply (add_event_creates_ingress Examples.fresh Examples.web "web" []);
    try reflexivity.
  exists "true". vm_compute. reflexivity.
Defined.

(** X14: a Service updated so that it no longer carries the annotation,
    while its Ingress exists: the update notification followed by one round
    of a worker, on a queue that was empty, issues exactly one store call,
    the Delete of the Service's namespace and name; the round returns true
    and leaves nothing pending. *)
Theorem update_event_deletes_ingress
    (DeepEqual : Obj → Obj → bool) (c : controller) (oldObj : Obj)
    (svc : Service) (ing : Ingress) (log : list Event) :
  let namespace := om_Namespace (svc_ObjectMeta svc) in
  let name := om_Name (svc_ObjectMeta svc) in
  noSlash namespace = true → noSlash name = true →
  DeepEqual oldObj (ObjService svc) = false →
  serviceLister c namespace name = (Some svc, None) →
  om_Annotations (svc_ObjectMeta svc) !! "ingress/http" = None →
  ingressLister c namespace name = (Some ing, None) →
  Delete (client c) namespace name = None →
  let s1 := finalState (updateService DeepEqual oldObj (ObjService svc) (idle log)) in
  returned (processNextItem c) s1 = Some true ∧
  storeCalls (processNextItem c) s1 = [EvDelete namespace name] ∧
  q_queue (st_queue (finalState (processNextItem c s1))) = [].
Proof.
  intros namespace name Hns Hname Hchanged Hs Ha Hi Hdelete s1.
  subst s1. unfold updateService. rewrite Hchanged, enqueue_service. cbn [finalState].
  assert (SplitMetaNamespaceKey (fst (MetaNamespaceKeyFunc (ObjService svc)))
          = (namespace, name, None)) as Hkey.
  { apply (split_object_key (svc_ObjectMeta svc)); [left; by destruct svc | done | done]. }
  apply (reconcile_sole_key c _ log
           ([EvServiceGet namespace name; EvIngressGet namespace name]
              ++ [EvDelete namespace name])).
  intros s. rewrite <- Hdelete.
  apply (syncService_delete c _ namespace name s Hkey svc None Hs eq_refl ing None Ha Hi).
  by left.
Qed.

Lemma update_event_deletes_ingress_witness :
  storeCalls (processNextItem Examples.populated)
             (finalState (updateService (fun _ _ => false) (ObjService Examples.web)
                            (ObjService Examples.db) (idle [])))
  = [EvDelete "default" "db"].
Proof.
  apply (update_event_deletes_ingress (fun _ _ => false) Examples.populated
           (ObjService Examples.web) Examples.db (constructIngress Examples.db) []);
    reflexivity.
Defined.

(** X15: an Ingress controlled by a Service is deleted while the Service
    still carries the annotation, and the delete notification delivers the
    Ingress object itself (not a tombstone, on which deleteIngress panics):
    the handler followed by one round of a worker, on a queue that was empty,
    issues exactly one store call, the Create of the Ingress constructed for
    the Service found under the deleted Ingress's namespace and name. *)
Theorem ingress_delete_event_recreates
    (c : controller) (ing : Ingress) (ref : OwnerReference) (svc : Service)
    (what : string) (log : list Event) :
  let namespace := om_Namespace (ing_ObjectMeta ing) in
  let name := om_Name (ing_ObjectMeta ing) in
  noSlash namespace = true → noSlash name = true →
  GetControllerOf (om_OwnerReferences (ing_ObjectMeta ing)) = Some ref →
  or_Kind ref = "Service" →
  serviceLister c namespace name = (Some svc, None) →
  is_Some (om_Annotations (svc_ObjectMeta svc) !! "ingress/http") →
  ingressLister c namespace name = (None, Some (ErrNotFound what)) →
  snd (Create (client c) namespace (constructIngress svc)) = None →
  let s1 := finalState (deleteIngress (ObjIngress ing) (idle log)) in
  returned (processNextItem c) s1 = Some true ∧
  storeCalls (processNextItem c) s1 = [EvCreate namespace (constructIngress svc)] ∧
  q_queue (st_queue (finalState (processNextItem c s1))) = [].
Proof.
  intros namespace name Hns Hname Href Hkind Hs Ha Hi Hcreate s1.
  subst s1. rewrite deleteIngress_run, Href, Hkind, queueAdd_run. cbn [String.eqb finalState].
  pose proof (split_joined_key namespace name Hns Hname) as Hkey.
  apply (reconcile_sole_key c _ log
           ([EvServiceGet namespace name; EvIngressGet namespace name]
              ++ [EvCreate namespace (constructIngress svc)])).
  intros s. rewrite <- Hcreate.
  by apply (syncService_create c _ namespace name s Hkey svc None Hs eq_refl
              None (Some (ErrNotFound what))).
Qed.

Lemma ingress_delete_event_recreates_witness :
  storeCalls (processNextItem Examples.fresh)
             (finalState (deleteIngress (ObjIngress (constructIngress Examples.web))
                            (idle [])))
  = [EvCreate "default" (constructIngress Examples.web)].
Proof.
  apply (ingress_delete_event_recreates Examples.fresh (constructIngress Examples.web)
           (NewControllerRef (svc_ObjectMeta Examples.web) "v1" "Service")
           Examples.web "web" []);
    try reflexivity.
  exists "true". vm_compute. reflexivity.
Defined.

(** ** What handlerError leaves alone *)

Lemma Add_frame (item : string) (q : Queue) :
  (q_queue (workqueue.Add item q) = q_queue q
   ∨ q_queue (workqueue.Add item q) = q_queue q ++ [item]) ∧
  q_processing (workqueue.Add item q) = q_processing q ∧
  q_failures (workqueue.Add item q) = q_failures q.
Proof.
  unfold workqueue.Add.
  destruct (q_shuttingDown q); [auto |].
  destruct (decide (item ∈ q_dirty q)); [auto |].
  destruct (decide (item ∈ q_processing q)); cbn; auto.
Qed.

Lemma retryQueue_frame (key : string) (q : Queue) :
  (q_queue (retryQueue key q) = q_queue q
   ∨ q_queue (retryQueue key q) = q_queue q ++ [key]) ∧
  q_processing (retryQueue key q) = q_processing q ∧
  (∀ k, k ≠ key → workqueue.NumRequeues k (retryQueue key q) = workqueue.NumRequeues k q).
Proof.
  unfold retryQueue, workqueue.NumRequeues.
  destruct (Nat.leb _ _); cbn [workqueue.Forget q_queue q_processing q_failures].
  - unfold workqueue.AddRateLimited.
    match goal with
    | |- context [workqueue.Add key ?q1] =>
        destruct (Add_frame key q1) as (Hpending & Hprocessing & Hfailures)
    end.
    rewrite Hprocessing, Hfailures. cbn [q_queue q_processing q_failures] in *.
    split; [exact Hpending |]. split; [reflexivity |].
    intros k Hne. by rewrite lookup_delete_ne, lookup_insert_ne.
  - split; [by left |]. split; [reflexivity |].
    intros k Hne. by rewrite lookup_delete_ne.
Qed.

(** X16: handlerError touches the failed key only: every key that was
    pending is still pending, no other key becomes pending, the set of keys
    in flight is unchanged, and the requeue counters of all other keys are
    what they were. *)
Theorem handlerError_keeps_other_keys (key : string) (err : error) (s : State) :
  let after := st_queue (finalState (handlerError key err s)) in
  (∀ k, k ∈ q_queue (st_queue s) → k ∈ q_queue after) ∧
  (∀ k, k ≠ key → k ∈ q_queue after → k ∈ q_queue (st_queue s)) ∧
  q_processing after = q_processing (st_queue s) ∧
  (∀ k, k ≠ key →
        workqueue.NumRequeues k after = workqueue.NumRequeues k (st_queue s)).
Proof.
  cbn zeta. rewrite handlerError_run. cbn [finalState st_queue].
  destruct (retryQueue_frame key (st_queue s)) as (Hpending & Hprocessing & Hcounters).
  split; [| split; [| split; [exact Hprocessing | exact Hcounters]]].
  - intros k Hk. destruct Hpending as [-> | ->]; [exact Hk |].
    apply elem_of_app. by left.
  - intros k Hne Hk. destruct Hpending as [Heq | Heq]; rewrite Heq in Hk; [exact Hk |].
    apply elem_of_app in Hk as [Hk | Hk]; [exact Hk |].
    apply list_elem_of_singleton in Hk. by destruct Hne.
Qed.
